(** * Content Repurposer: client-side job model

    A shallow embedding of the TypeScript client of the content
    repurposer (types, mock data service, job hooks, job list and job
    detail pages), followed by the properties checked against it.

    Conventions of the embedding:
    - a TypeScript [string | null] field is an [option string]; [None]
      also stands for [undefined] where the source can produce it;
    - a JS object used as a dictionary ([Record<string, T>], the job
      metadata) is a [gmap string T];
    - values the source obtains from [Math.random()] and [new Date()]
      are explicit arguments (the "draws") of the embedded function;
    - platform string functions whose result depends on Unicode tables
      or date parsing ([toLowerCase], [Date.getTime]) are parameters. *)

From stdpp Require Import gmap strings list pretty sorting.
From Stdlib Require Import ZArith Lia Ascii.

Local Open Scope Z_scope.

(* ===================================================================== *)
(** * Part I: definitions                                                 *)
(* ===================================================================== *)

(** ** types/index.ts *)

Inductive ContentType :=
  | TWITTER | INSTAGRAM | LINKEDIN | FACEBOOK
  | THUMBNAIL | TWITTER_IMAGE | INSTAGRAM_IMAGE.

Inductive JobStatus := PENDING | PROCESSING | COMPLETED | FAILED.

#[global] Instance ContentType_eq_dec : EqDecision ContentType.
Proof. solve_decision. Defined.

#[global] Instance JobStatus_eq_dec : EqDecision JobStatus.
Proof. solve_decision. Defined.

(** The string value of each enum member. *)
Definition ContentType_str (t : ContentType) : string :=
  match t with
  | TWITTER => "twitter"
  | INSTAGRAM => "instagram"
  | LINKEDIN => "linkedin"
  | FACEBOOK => "facebook"
  | THUMBNAIL => "thumbnail"
  | TWITTER_IMAGE => "twitter_image"
  | INSTAGRAM_IMAGE => "instagram_image"
  end.


(** [interface JobOutput] *)
Record JobOutput := mkJobOutput {
  out_id : string;
  content_type : ContentType;
  content : option string;
  file_path : option string;
  out_created_at : string;
  out_updated_at : string;
}.

(** A value stored in [job_metadata] / [metadata]: a string ([tone],
    [style]), a list of strings ([hashtags]) or the list of requested
    content types ([content_types]). *)
Inductive MetaValue :=
  | MStr (s : string)
  | MStrs (l : list string)
  | MTypes (l : list ContentType).

(** [interface Job] *)
Record Job := mkJob {
  job_id : string;
  title : string;
  status : JobStatus;
  created_at : string;
  updated_at : string;
  completed_at : option string;
  error_message : option string;
  job_metadata : gmap string MetaValue;
  outputs : list JobOutput;
}.

(** [job.job_metadata.content_types] *)
Definition content_types (j : Job) : list ContentType :=
  match job_metadata j !! "content_types" with
  | Some (MTypes l) => l
  | _ => []
  end.

(** [interface ContentSubmissionForm] *)
Record ContentSubmissionForm := mkForm {
  form_title : string;
  form_content : string;
  form_content_types : list ContentType;
  form_metadata : option (gmap string MetaValue);
}.

(** ** services/mockData.ts *)

Module MockData.

(** The random values one call of [createMockOutput] consumes: the
    base-36 suffix of the id and the two [randomDate] results. *)
Record OutputDraw := mkOutputDraw {
  draw_suffix : string;
  draw_created : string;
  draw_updated : string;
}.

(** The random values one call of [createMockJob] consumes:
    [Math.floor(Math.random() * statuses.length)], the array produced
    by the random-comparator sort, [Math.floor(Math.random() * 3)],
    the [randomDate] results, and the draws of the [n]-th
    [createMockOutput] call. *)
Record JobDraw := mkJobDraw {
  draw_status : nat;
  draw_shuffled : list ContentType;
  draw_count : nat;
  draw_createdAt : string;
  draw_updatedAt : string;
  draw_completedAt : string;
  draw_output : nat → OutputDraw;
}.

Definition statuses : list JobStatus := [COMPLETED; PROCESSING; PENDING; FAILED].

Definition randomStatus (i : nat) : JobStatus := nth i statuses PENDING.

Definition allTypes : list ContentType :=
  [TWITTER; INSTAGRAM; LINKEDIN; FACEBOOK; THUMBNAIL].

(** [shuffled.slice(0, Math.floor(Math.random() * 3) + 1)] *)
Definition randomContentTypes (shuffled : list ContentType) (k : nat)
  : list ContentType :=
  take (k + 1)%nat shuffled.

Definition isImage (contentType : ContentType) : bool :=
  bool_decide (contentType = THUMBNAIL)
  || bool_decide (contentType = TWITTER_IMAGE)
  || bool_decide (contentType = INSTAGRAM_IMAGE).

Definition createMockOutput (d : OutputDraw) (jobId : string)
    (contentType : ContentType) : JobOutput :=
  {| out_id := "output-" +:+ draw_suffix d;
     content_type := contentType;
     content :=
       if isImage contentType then None
       else Some ("Mock content for " +:+ ContentType_str contentType +:+
                  ". This is a generated text for demonstration purposes.");
     file_path :=
       if isImage contentType
       then Some ("https://picsum.photos/seed/" +:+ jobId +:+ "/800/600")
       else None;
     out_created_at := draw_created d;
     out_updated_at := draw_updated d |}.

Definition createMockJob (d : JobDraw) (id : string) : Job :=
  let status := randomStatus (draw_status d) in
  let contentTypes := randomContentTypes (draw_shuffled d) (draw_count d) in
  let outputs :=
    imap (λ i type, createMockOutput (draw_output d i) id type) contentTypes in
  let outputs :=
    outputs ++ [createMockOutput (draw_output d (length contentTypes)) id THUMBNAIL] in
  {| job_id := id;
     title := "Mock Job " +:+ id;
     status := status;
     created_at := draw_createdAt d;
     updated_at := draw_updatedAt d;
     completed_at :=
       if decide (status = COMPLETED) then Some (draw_completedAt d) else None;
     error_message :=
       if decide (status = FAILED) then Some "Mock error message" else None;
     job_metadata :=
       {[ "content_types" := MTypes contentTypes;
          "tone" := MStr "professional";
          "hashtags" := MStrs ["mock"; "test"; "demo"] ]};
     outputs := outputs |}.

(** The argument of [createNewMockJob] ([data: any], used through
    [data.title], [data.content_types] and [data.metadata]). *)
Record NewJobData := mkNewJobData {
  data_title : string;
  data_content_types : list ContentType;
  data_metadata : option (gmap string MetaValue);
}.

(** [{ content_types: data.content_types, ...data.metadata }]: the
    spread comes last, so its keys win. *)
Definition spread_metadata (cts : list ContentType)
    (md : option (gmap string MetaValue)) : gmap string MetaValue :=
  default ∅ md ∪ {[ "content_types" := MTypes cts ]}.

(** [createNewMockJob] reads and updates the module-level array
    [mockJobs]; the array is threaded through.  [now1] and [now2] are
    the two [new Date().toISOString()] results. *)
Definition createNewMockJob (now1 now2 : string) (data : NewJobData)
    (mockJobs : list Job) : Job * list Job :=
  let newJob :=
    {| job_id := "job-" +:+ pretty (length mockJobs + 1)%nat;
       title := data_title data;
       status := PENDING;
       created_at := now1;
       updated_at := now2;
       completed_at := None;
       error_message := None;
       job_metadata :=
         spread_metadata (data_content_types data) (data_metadata data);
       outputs := [] |} in
  (newJob, newJob :: mockJobs).

(** [getMockJob]: [mockJobs.find(job => job.id === jobId)] *)
Definition getMockJob (mockJobs : list Job) (jobId : string) : option Job :=
  list_find (λ job, job_id job = jobId) mockJobs ≫= λ '(_, job), Some job.

(** [generateMockJobs(count)]:
    [Array.from({ length: count }, (_, i) => createMockJob(`job-${i + 1}`))];
    [draws i] are the random values of the [i]-th job. *)
Definition generateMockJobs (draws : nat → JobDraw) (count : nat) : list Job :=
  (λ i, createMockJob (draws i) ("job-" +:+ pretty (i + 1)%nat)) <$> seq 0 count.

(** A run of [createNewMockJob] calls on the module-level array; each
    call comes with its two timestamps and its data. *)
Definition createAll (calls : list (string * string * NewJobData))
    (mockJobs : list Job) : list Job :=
  foldl (λ jobs c, (createNewMockJob c.1.1 c.1.2 c.2 jobs).2) mockJobs calls.

End MockData.

(** How many outputs of a job carry a given content type. *)
Definition outputs_of_type (t : ContentType) (os : list JobOutput) : nat :=
  length (filter (λ o, content_type o = t) os).

(** ** The JavaScript built-ins the client code calls *)

Module JS.

(** [s.startsWith(p)] *)
Fixpoint startsWith (s p : string) : bool :=
  match p, s with
  | EmptyString, _ => true
  | String _ _, EmptyString => false
  | String c p', String d s' => bool_decide (c = d) && startsWith s' p'
  end.

(** [s.indexOf(sub)]: position of the first occurrence, or [-1]. *)
Fixpoint indexOf (s sub : string) : Z :=
  if startsWith s sub then 0
  else match s with
       | EmptyString => -1
       | String _ s' =>
           let i := indexOf s' sub in
           if i <? 0 then -1 else i + 1
       end.

(** [s.includes(sub)] *)
Fixpoint includes (s sub : string) : bool :=
  startsWith s sub ||
  match s with
  | EmptyString => false
  | String _ s' => includes s' sub
  end.

Fixpoint str_drop (n : nat) (s : string) : string :=
  match n, s with
  | O, _ => s
  | S _, EmptyString => EmptyString
  | S n', String _ s' => str_drop n' s'
  end.

Fixpoint str_take (n : nat) (s : string) : string :=
  match n, s with
  | O, _ => EmptyString
  | S _, EmptyString => EmptyString
  | S n', String c s' => String c (str_take n' s')
  end.

(** Index clamping of [substring]: negative becomes 0, beyond the end
    becomes the length. *)
Definition clamp (len : nat) (i : Z) : nat :=
  Z.to_nat (Z.min (Z.max i 0) (Z.of_nat len)).

(** [s.substring(start, end)]: both indices are clamped and swapped
    when out of order. *)
Definition substring (s : string) (start end_ : Z) : string :=
  let a := clamp (String.length s) start in
  let b := clamp (String.length s) end_ in
  str_take (Nat.max a b - Nat.min a b) (str_drop (Nat.min a b) s).

(** [s.substring(start)] *)
Definition substring_from (s : string) (start : Z) : string :=
  substring s start (Z.of_nat (String.length s)).

(** [s.slice(start)]: a negative index counts from the end. *)
Definition slice_from (s : string) (start : Z) : string :=
  let len := Z.of_nat (String.length s) in
  let k := if start <? 0 then Z.max (len + start) 0 else Z.min start len in
  str_drop (Z.to_nat k) s.

(** [s.split(c)] for a one-character separator [c]. *)
Fixpoint split (c : ascii) (s : string) : list string :=
  match s with
  | EmptyString => [EmptyString]
  | String d s' =>
      if bool_decide (d = c) then EmptyString :: split c s'
      else match split c s' with
           | [] => [String d EmptyString]
           | w :: ws => String d w :: ws
           end
  end.

(** [arr.pop()] as an expression: the last element ([undefined], here
    [None], on an empty array). *)
Definition pop {A} (l : list A) : option A := last l.

(** [arr.slice(start, end)] on arrays. *)
Definition slice {A} (l : list A) (start end_ : Z) : list A :=
  let len := Z.of_nat (length l) in
  let k := if start <? 0 then Z.max (len + start) 0 else Z.min start len in
  let final := if end_ <? 0 then Z.max (len + end_) 0 else Z.min end_ len in
  take (Z.to_nat (Z.max (final - k) 0)) (drop (Z.to_nat k) l).

(** [a || d] on an optional string: the empty string is falsy. *)
Definition or_else (a : option string) (d : string) : string :=
  match a with
  | Some s => if decide (s = EmptyString) then d else s
  | None => d
  end.

(** [arr.sort(cmp)]: the sort is stable; [cmp a b <= 0] keeps [a]
    before [b].  Insertion from the right end realises the unique
    stable order whenever [cmp] is a consistent comparator. *)
Fixpoint sort_insert {A} (cmp : A → A → Z) (x : A) (l : list A) : list A :=
  match l with
  | [] => [x]
  | y :: l' =>
      if cmp x y <=? 0 then x :: y :: l' else y :: sort_insert cmp x l'
  end.

Fixpoint sort {A} (cmp : A → A → Z) (l : list A) : list A :=
  match l with
  | [] => []
  | x :: l' => sort_insert cmp x (sort cmp l')
  end.

(** [a - b] on two numbers that may be [NaN] ([None]), then the
    comparator result as [sort] reads it: [NaN] counts as [0]. *)
Definition sub_or_zero (a b : option Z) : Z :=
  match a, b with
  | Some x, Some y => x - y
  | _, _ => 0
  end.

(** Truthiness of a [string | null] value: [null] and the empty
    string are falsy. *)
Definition truthy (a : option string) : bool :=
  match a with
  | Some s => bool_decide (s ≠ EmptyString)
  | None => false
  end.

End JS.

(** ** hooks/useJobs.ts *)

Module UseJobs.





End UseJobs.

(** ** pages/JobList.tsx *)

Module JobList.

(** Component state; [statusFilter = None] is the filter ['all']. *)
Record State := mkState {
  page : Z;
  rowsPerPage : Z;
  searchTerm : string;
  statusFilter : option JobStatus;
}.

Definition initialState : State :=
  {| page := 0; rowsPerPage := 10; searchTerm := ""; statusFilter := None |}.

Definition handleChangePage (newPage : Z) (st : State) : State :=
  {| page := newPage; rowsPerPage := rowsPerPage st;
     searchTerm := searchTerm st; statusFilter := statusFilter st |}.

(** [value] is [parseInt(event.target.value, 10)]. *)
Definition handleChangeRowsPerPage (value : Z) (st : State) : State :=
  {| page := 0; rowsPerPage := value;
     searchTerm := searchTerm st; statusFilter := statusFilter st |}.

Definition handleClearSearch (st : State) : State :=
  {| page := page st; rowsPerPage := rowsPerPage st;
     searchTerm := ""; statusFilter := statusFilter st |}.

Definition handleStatusFilterChange (s : option JobStatus) (st : State) : State :=
  {| page := 0; rowsPerPage := rowsPerPage st;
     searchTerm := searchTerm st; statusFilter := s |}.

Section Platform.
(** [String.prototype.toLowerCase] and
    [new Date(s).getTime()] ([None] is [NaN], an invalid date). *)
Variable toLowerCase : string → string.
Variable getTime : string → option Z.

(** The predicate passed to [jobs.filter]. *)
Definition matches (st : State) (job : Job) : bool :=
  (bool_decide (statusFilter st = None)
   || bool_decide (Some (status job) = statusFilter st))
  && (bool_decide (searchTerm st = "")
      || JS.includes (toLowerCase (title job)) (toLowerCase (searchTerm st))
      || JS.includes (toLowerCase (job_id job)) (toLowerCase (searchTerm st))).

(** The comparator passed to [sort]:
    [new Date(b.created_at).getTime() - new Date(a.created_at).getTime()]. *)
Definition byCreatedDesc (a b : Job) : Z :=
  JS.sub_or_zero (getTime (created_at b)) (getTime (created_at a)).

(** [jobs] is [undefined] ([None]) while the query has no data. *)
Definition filteredJobs (jobs : option (list Job)) (st : State) : list Job :=
  match jobs with
  | Some js => JS.sort byCreatedDesc (List.filter (matches st) js)
  | None => []
  end.

Definition paginatedJobs (jobs : option (list Job)) (st : State) : list Job :=
  JS.slice (filteredJobs jobs st)
    (page st * rowsPerPage st) (page st * rowsPerPage st + rowsPerPage st).
End Platform.

End JobList.

(** ** services/api.ts *)

Module Api.

(** The requests [contentAPI] can send to the backend. *)
Inductive Request :=
  | SubmitContent (data : ContentSubmissionForm)
  | GetJobs
  | GetJob (jobId : string).

(** [baseURL: import.meta.env.VITE_API_URL || 'http://localhost:8001/api'] *)
Definition baseURL (VITE_API_URL : option string) : string :=
  JS.or_else VITE_API_URL "http://localhost:8001/api".

(** The browser's [localStorage]; [getItem] of a missing key is
    [null]. *)
Abbreviation Storage := (gmap string string).

(** The part of an axios request configuration the interceptor
    touches. *)
Record Config := mkConfig {
  url : string;
  headers : gmap string string;
}.

(** The request interceptor: adds the bearer token when there is one. *)
Definition requestInterceptor (localStorage : Storage) (config : Config) : Config :=
  if JS.truthy (localStorage !! "token")
  then {| url := url config;
          headers := <["Authorization" :=
                         "Bearer " +:+ default "" (localStorage !! "token")]>
                       (headers config) |}
  else config.

(** The error handler of the response interceptor.  [status] is
    [error.response?.status]; [location] is [window.location.href].
    The error is rejected again in every case, which the embedding
    leaves to the caller. *)
Definition responseErrorInterceptor (status : option Z)
    (localStorage : Storage) (location : string) : Storage * string :=
  if decide (status = Some 401)
  then (delete "token" localStorage, "/login")
  else (localStorage, location).

End Api.

(** ** pages/JobDetail.tsx *)

Module JobDetail.

(** The part of the component state the editing handlers touch: the
    two [useState] dictionaries and the job object held by the query. *)
Record State := mkState {
  editingContent : gmap string bool;
  editedContent : gmap string string;
  job : option Job;
}.

(** A handler yields the next state and the backend requests it sent. *)
Definition Handler : Type := State → State * list Api.Request.

Definition handleStartEditing (outputId content : string) : Handler := λ st,
  ({| editingContent := <[outputId := true]> (editingContent st);
      editedContent := <[outputId := content]> (editedContent st);
      job := job st |}, []).

Definition handleCancelEditing (outputId : string) : Handler := λ st,
  ({| editingContent := <[outputId := false]> (editingContent st);
      editedContent := editedContent st;
      job := job st |}, []).

(** [{ ...output, content: c }] *)
Definition with_content (output : JobOutput) (c : option string) : JobOutput :=
  {| out_id := out_id output;
     content_type := content_type output;
     content := c;
     file_path := file_path output;
     out_created_at := out_created_at output;
     out_updated_at := out_updated_at output |}.

(** [job.outputs = os] *)
Definition with_outputs (j : Job) (os : list JobOutput) : Job :=
  {| job_id := job_id j;
     title := title j;
     status := status j;
     created_at := created_at j;
     updated_at := updated_at j;
     completed_at := completed_at j;
     error_message := error_message j;
     job_metadata := job_metadata j;
     outputs := os |}.

(** [editedContent[outputId]] is [undefined] ([None]) when the
    dictionary has no such key. *)
Definition handleSaveEditing (outputId : string) : Handler := λ st,
  let editing := <[outputId := false]> (editingContent st) in
  let job' :=
    match job st with
    | Some j =>
        let updatedOutputs :=
          map (λ output,
                 if decide (out_id output = outputId)
                 then with_content output (editedContent st !! outputId)
                 else output)
              (outputs j) in
        Some (with_outputs j updatedOutputs)
    | None => None
    end in
  ({| editingContent := editing;
      editedContent := editedContent st;
      job := job' |}, []).

Definition handleContentChange (outputId newContent : string) : Handler := λ st,
  ({| editingContent := editingContent st;
      editedContent := <[outputId := newContent]> (editedContent st);
      job := job st |}, []).


(** [normalizedPath] as computed inside [getBaseStorageUrls]. *)
Definition normalizedPath (filePath : string) : string :=
  let p := filePath in
  let p :=
    if JS.includes p "storage/"
    then JS.substring_from p (JS.indexOf p "storage/" + 8)
    else p in
  if JS.startsWith p "/" then JS.slice_from p 1 else p.

(** [serverBaseUrl] as computed inside [getBaseStorageUrls];
    [defaultsBaseURL] is [api.defaults.baseURL]. *)
Definition serverBaseUrl (defaultsBaseURL : option string) : string :=
  let baseUrl := JS.or_else defaultsBaseURL "http://localhost:8001/api" in
  if JS.includes baseUrl "/api"
  then JS.substring baseUrl 0 (JS.indexOf baseUrl "/api")
  else baseUrl.

(** [normalizedPath.split('/').pop()]; [split] never yields an empty
    array, the default is not reached. *)
Definition fileName (path : string) : string :=
  default "" (JS.pop (JS.split "/"%char path)).

Definition getBaseStorageUrls (defaultsBaseURL : option string)
    (filePath : string) : list string :=
  if decide (filePath = "") then []
  else if JS.startsWith filePath "http://" || JS.startsWith filePath "https://"
  then [filePath]
  else
    let server := serverBaseUrl defaultsBaseURL in
    let path := normalizedPath filePath in
    [ server +:+ "/storage/" +:+ path;
      server +:+ "/storage/twitter_images/" +:+ path;
      server +:+ "/storage/instagram_images/" +:+ path;
      server +:+ "/storage/linkedin_images/" +:+ path;
      server +:+ "/storage/facebook_images/" +:+ path;
      server +:+ "/storage/thumbnails/" +:+ path;
      server +:+ "/storage/twitter_images/" +:+ fileName path;
      server +:+ "/storage/instagram_images/" +:+ fileName path;
      server +:+ "/storage/linkedin_images/" +:+ fileName path;
      server +:+ "/storage/facebook_images/" +:+ fileName path;
      server +:+ "/storage/thumbnails/" +:+ fileName path ].

(** The image state of the component: four [useState] dictionaries
    keyed by output id. *)
Record ImageState := mkImageState {
  imageError : gmap string bool;
  imageUrls : gmap string string;
  imageLoading : gmap string bool;
  successfulUrlFormat : gmap string string;
}.

(** [setImageError(prev => ({ ...prev, [outputId]: b }))] and its
    three siblings. *)
Definition setImageError (outputId : string) (b : bool) (s : ImageState) : ImageState :=
  {| imageError := <[outputId := b]> (imageError s);
     imageUrls := imageUrls s;
     imageLoading := imageLoading s;
     successfulUrlFormat := successfulUrlFormat s |}.

Definition setImageUrls (outputId url : string) (s : ImageState) : ImageState :=
  {| imageError := imageError s;
     imageUrls := <[outputId := url]> (imageUrls s);
     imageLoading := imageLoading s;
     successfulUrlFormat := successfulUrlFormat s |}.

Definition setImageLoading (outputId : string) (b : bool) (s : ImageState) : ImageState :=
  {| imageError := imageError s;
     imageUrls := imageUrls s;
     imageLoading := <[outputId := b]> (imageLoading s);
     successfulUrlFormat := successfulUrlFormat s |}.

Definition setSuccessfulUrlFormat (outputId url : string) (s : ImageState) : ImageState :=
  {| imageError := imageError s;
     imageUrls := imageUrls s;
     imageLoading := imageLoading s;
     successfulUrlFormat := <[outputId := url]> (successfulUrlFormat s) |}.

Section Images.
(** [api.defaults.baseURL], and whether the browser manages to load
    the image behind a candidate URL (the cache-busting query
    [?t=<time>] appended to the image source does not select the
    image). *)
Variable defaultsBaseURL : option string.
Variable loads : string → bool.

(** [tryAlternativeImageUrl]: the [onload] and [onerror] callbacks
    are run in place.  The result is the final image state and the
    candidate URLs requested, in order.  The source recursion has
    no counter; [fuel] bounds it here and [None] means it ran out. *)
Fixpoint tryAlternativeImageUrl_fuel (fuel : nat) (outputId filePath : string)
    (currentAttempt : nat) (s : ImageState) : option (ImageState * list string) :=
  match fuel with
  | O => None
  | S fuel' =>
      if decide (filePath = "")
      then Some (setImageLoading outputId false (setImageError outputId true s), [])
      else
        let urlFormats := getBaseStorageUrls defaultsBaseURL filePath in
        if decide (length urlFormats ≤ currentAttempt)%nat
        then Some (setImageLoading outputId false (setImageError outputId true s), [])
        else
          let s := setImageLoading outputId true (setImageError outputId false s) in
          let url := nth currentAttempt urlFormats "" in
          if loads url
          then Some (setImageLoading outputId false
                       (setImageUrls outputId url
                          (setSuccessfulUrlFormat outputId url s)), [url])
          else match tryAlternativeImageUrl_fuel fuel' outputId filePath
                       (currentAttempt + 1) s with
               | Some (s', requested) => Some (s', url :: requested)
               | None => None
               end
  end.

(** One more unit of fuel than there are candidates left. *)
Definition tryAlternativeImageUrl (outputId filePath : string)
    (currentAttempt : nat) (s : ImageState) : option (ImageState * list string) :=
  tryAlternativeImageUrl_fuel
    (S (length (getBaseStorageUrls defaultsBaseURL filePath) - currentAttempt))
    outputId filePath currentAttempt s.

(** [handleImageError]; [job] is the job held by the query. *)
Definition handleImageError (job : option Job) (outputId : string)
    (s : ImageState) : option (ImageState * list string) :=
  if JS.truthy (successfulUrlFormat s !! outputId)
  then Some (setImageUrls outputId
               (default "" (successfulUrlFormat s !! outputId)) s, [])
  else
    let output :=
      job ≫= λ j, List.find (λ o, bool_decide (out_id o = outputId)) (outputs j) in
    match output with
    | Some o =>
        if JS.truthy (file_path o)
        then tryAlternativeImageUrl outputId (default "" (file_path o)) 0 s
        else Some (setImageError outputId true s, [])
    | None => Some (setImageError outputId true s, [])
    end.
End Images.

(** The accumulator of the [reduce] that groups outputs: a JS object
    keyed by content type, kept as an association list in insertion
    order (the order [Object.keys] reports). *)
Definition Groups : Type := list (ContentType * list JobOutput).

(** [acc[contentType]] *)
Fixpoint group_get (t : ContentType) (acc : Groups) : option (list JobOutput) :=
  match acc with
  | [] => None
  | (k, g) :: acc' => if decide (k = t) then Some g else group_get t acc'
  end.

(** [acc[contentType] = []] on a key that is absent. *)
Definition group_add (t : ContentType) (acc : Groups) : Groups := acc ++ [(t, [])].

(** [acc[contentType].push(output)] *)
Fixpoint group_push (t : ContentType) (output : JobOutput) (acc : Groups) : Groups :=
  match acc with
  | [] => []
  | (k, g) :: acc' =>
      if decide (k = t) then (k, g ++ [output]) :: acc'
      else (k, g) :: group_push t output acc'
  end.

(** The body of the reducer. *)
Definition group_step (acc : Groups) (output : JobOutput) : Groups :=
  let contentType := content_type output in
  let acc := match group_get contentType acc with
             | None => group_add contentType acc
             | Some _ => acc
             end in
  group_push contentType output acc.

(** [job?.outputs.reduce(..., {})] *)
Definition groupedOutputs (job : option Job) : option Groups :=
  (λ j, foldl group_step [] (outputs j)) <$> job.

(** [groupedOutputs ? Object.keys(groupedOutputs) : []] *)
Definition contentTypes (job : option Job) : list ContentType :=
  match groupedOutputs job with
  | Some g => g.*1
  | None => []
  end.

End JobDetail.

(** ** pages/NewContent.tsx *)

Module NewContent.

Definition initialFormData : ContentSubmissionForm :=
  {| form_title := "";
     form_content := "";
     form_content_types := [];
     form_metadata :=
       Some {[ "tone" := MStr "professional";
               "hashtags" := MStrs [];
               "style" := MStr "modern" ]} |}.

(** [{ ...prev, content_types: cts }] and [{ ...prev, metadata: md }] *)
Definition with_content_types (f : ContentSubmissionForm)
    (cts : list ContentType) : ContentSubmissionForm :=
  {| form_title := form_title f; form_content := form_content f;
     form_content_types := cts; form_metadata := form_metadata f |}.

Definition with_metadata (f : ContentSubmissionForm)
    (md : gmap string MetaValue) : ContentSubmissionForm :=
  {| form_title := form_title f; form_content := form_content f;
     form_content_types := form_content_types f; form_metadata := Some md |}.

(** [{ ...prev.metadata! }]: spreading [undefined] adds no key. *)
Definition spread (md : option (gmap string MetaValue)) : gmap string MetaValue :=
  default ∅ md.

(** [metadata?.hashtags] *)
Definition hashtags_of (md : option (gmap string MetaValue)) : option (list string) :=
  match spread md !! "hashtags" with
  | Some (MStrs l) => Some l
  | _ => None
  end.

Definition handleContentTypeChange (value : ContentType) (checked : bool)
    (prev : ContentSubmissionForm) : ContentSubmissionForm :=
  with_content_types prev
    (if checked then form_content_types prev ++ [value]
     else List.filter (λ type, bool_decide (type ≠ value)) (form_content_types prev)).

Definition handleToneChange (value : string) (prev : ContentSubmissionForm)
  : ContentSubmissionForm :=
  with_metadata prev (<["tone" := MStr value]> (spread (form_metadata prev))).

Definition handleStyleChange (value : string) (prev : ContentSubmissionForm)
  : ContentSubmissionForm :=
  with_metadata prev (<["style" := MStr value]> (spread (form_metadata prev))).

Definition handleRemoveHashtag (tag : string) (prev : ContentSubmissionForm)
  : ContentSubmissionForm :=
  with_metadata prev
    (<["hashtags" :=
         MStrs (match hashtags_of (form_metadata prev) with
                | Some l => List.filter (λ t, bool_decide (t ≠ tag)) l
                | None => []
                end)]> (spread (form_metadata prev))).

(** What [handleSubmit] does after validation: it shows an error, or
    it sends the form to the backend. *)
Inductive SubmitOutcome :=
  | ShowError (message : string)
  | Send (request : Api.Request).

Section Platform.
(** [String.prototype.trim] *)
Variable trim : string → string.

(** [hashtag] is the text field next to the form. *)
Definition handleAddHashtag (hashtag : string) (formData : ContentSubmissionForm)
  : ContentSubmissionForm :=
  if bool_decide (trim hashtag ≠ "")
     && negb (match hashtags_of (form_metadata formData) with
              | Some l => bool_decide (trim hashtag ∈ l)
              | None => false
              end)
  then with_metadata formData
         (<["hashtags" :=
              MStrs (default [] (hashtags_of (form_metadata formData))
                     ++ [trim hashtag])]> (spread (form_metadata formData)))
  else formData.

Definition handleSubmit (formData : ContentSubmissionForm) : SubmitOutcome :=
  if decide (trim (form_title formData) = "") then ShowError "Title is required"
  else if decide (trim (form_content formData) = "") then ShowError "Content is required"
  else if decide (length (form_content_types formData) = 0%nat)
  then ShowError "Please select at least one platform"
  else Send (Api.SubmitContent formData).

(** The [onChange] of the two text fields:
    [setFormData({ ...formData, title: e.target.value })] and
    [setFormData({ ...formData, content: e.target.value })]. *)
Definition setTitle (value : string) (formData : ContentSubmissionForm)
  : ContentSubmissionForm :=
  {| form_title := value; form_content := form_content formData;
     form_content_types := form_content_types formData;
     form_metadata := form_metadata formData |}.

Definition setContent (value : string) (formData : ContentSubmissionForm)
  : ContentSubmissionForm :=
  {| form_title := form_title formData; form_content := value;
     form_content_types := form_content_types formData;
     form_metadata := form_metadata formData |}.

(** The user actions that change [formData]. *)
Inductive Event :=
  | ContentTypeChange (value : ContentType) (checked : bool)
  | ToneChange (value : string)
  | StyleChange (value : string)
  | AddHashtag (hashtag : string)
  | RemoveHashtag (tag : string)
  | TitleChange (value : string)
  | ContentChange (value : string).

Definition step (f : ContentSubmissionForm) (e : Event) : ContentSubmissionForm :=
  match e with
  | ContentTypeChange v c => handleContentTypeChange v c f
  | ToneChange v => handleToneChange v f
  | StyleChange v => handleStyleChange v f
  | AddHashtag h => handleAddHashtag h f
  | RemoveHashtag t => handleRemoveHashtag t f
  | TitleChange v => setTitle v f
  | ContentChange v => setContent v f
  end.

Definition run (events : list Event) : ContentSubmissionForm :=
  foldl step initialFormData events.
End Platform.

(** The option keys the form carries, and the shape of each value. *)
Definition optionKeys : gset string := {[ "tone"; "hashtags"; "style" ]}.

Definition well_shaped (md : gmap string MetaValue) : Prop :=
  (∃ s, md !! "tone" = Some (MStr s))
  ∧ (∃ s, md !! "style" = Some (MStr s))
  ∧ (∃ l, md !! "hashtags" = Some (MStrs l)).

(** The metadata of a form is present, has exactly the three option
    keys, and each key holds a value of its shape. *)
Definition options_ok (f : ContentSubmissionForm) : Prop :=
  ∃ md, form_metadata f = Some md ∧ dom md = optionKeys ∧ well_shaped md.

End NewContent.

(** ** App.tsx, hooks/useAuth.ts, components/Layout.tsx *)

Module Auth.

(** What [ProtectedRoute] renders once its effect has run. *)
Inductive Rendered :=
  | Children
  | Navigate (to : string).

(** [ProtectedRoute]: [isAuthenticated] is [!!localStorage.getItem('token')]. *)
Definition ProtectedRoute (localStorage : Api.Storage) : Rendered :=
  if JS.truthy (localStorage !! "token") then Children else Navigate "/login".

(** [interface User] *)
Record User := mkUser {
  user_id : string;
  email : string;
  full_name : string;
}.

(** The state of the [useAuth] hook. *)
Record State := mkState {
  user : option User;
  isLoading : bool;
}.

Definition initialState : State := {| user := None; isLoading := true |}.

(** [isAuthenticated: !!user] *)
Definition isAuthenticated (st : State) : bool :=
  match user st with Some _ => true | None => false end.

(** [checkAuth], run on mount. *)
Definition checkAuth (localStorage : Api.Storage) (st : State) : State :=
  {| user := if JS.truthy (localStorage !! "token")
             then Some {| user_id := "1"; email := "user@example.com";
                          full_name := "Example User" |}
             else user st;
     isLoading := false |}.

(** [login]: the storage and hook state afterwards, and the requests
    sent to the backend. *)
Definition login (email_ password : string) (localStorage : Api.Storage)
    (st : State) : Api.Storage * State * list Api.Request :=
  (<["token" := "mock-token"]> localStorage,
   {| user := Some {| user_id := "1"; email := email_;
                      full_name := "Example User" |};
      isLoading := false |},
   []).

Definition logout (localStorage : Api.Storage) (st : State) : Api.Storage * State :=
  (delete "token" localStorage, {| user := None; isLoading := isLoading st |}).

(** [Layout.handleLogout]: the storage afterwards and the route
    navigated to. *)
Definition handleLogout (localStorage : Api.Storage) : Api.Storage * string :=
  (delete "userEmail" (delete "userName" (delete "token" localStorage)), "/login").

(** The outcome of [authAPI.login] as the login page sees it: the
    [access_token] of the response, or the rejection with its
    [err.response?.status], [err.message] and
    [err.response?.data?.detail]. *)
Inductive LoginResponse :=
  | LoginOk (access_token : string)
  | LoginFailed (status : option Z) (message detail : option string).

(** [Login.handleSubmit] after the response arrived: the storage,
    the location of the page and the error shown (['']  when none).
    The login page is at [/login]; [navigate('/')] leaves it after a
    success.  A rejected request first passes the response
    interceptor of the axios instance, and [handleSubmit] itself
    then only shows the error. *)
Definition loginSubmit (email_ : string) (response : LoginResponse)
    (localStorage : Api.Storage) : Api.Storage * string * string :=
  match response with
  | LoginOk access_token =>
      (<["userEmail" := email_]>
         (<["userName" := default "" (head (JS.split "@" email_))]>
            (<["token" := access_token]> localStorage)),
       "/", "")
  | LoginFailed status message detail =>
      (Api.responseErrorInterceptor status localStorage "/login",
       JS.or_else message
         (JS.or_else detail "Failed to login. Please check your credentials."))
  end.

(** [UserMenu]: the name and e-mail shown. *)
Definition userName (localStorage : Api.Storage) : string :=
  JS.or_else (localStorage !! "userName") "User".

Definition userEmail (localStorage : Api.Storage) : string :=
  JS.or_else (localStorage !! "userEmail") "user@example.com".

End Auth.

(** ** theme/ThemeProvider.tsx *)

Module Theme.

(** The initial [mode]:
    [storedMode || (prefersDarkMode ? 'dark' : 'light')]. *)
Definition initialMode (localStorage : Api.Storage) (prefersDarkMode : bool) : string :=
  JS.or_else (localStorage !! "themeMode") (if prefersDarkMode then "dark" else "light").

(** [toggleColorMode]: the new mode and the storage afterwards. *)
Definition toggleColorMode (mode : string) (localStorage : Api.Storage)
  : string * Api.Storage :=
  let newMode := if decide (mode = "light") then "dark" else "light" in
  (newMode, <["themeMode" := newMode]> localStorage).

End Theme.

(** ** components/NotificationsMenu.tsx *)

Module Notifications.

Record Notification := mkNotification {
  id : Z;
  type : string;
  message : string;
  time : string;
  read : bool;
}.

Definition sampleNotifications : list Notification :=
  [ {| id := 1; type := "success";
       message := "Your Twitter content has been generated successfully";
       time := "5 minutes ago"; read := false |};
    {| id := 2; type := "info";
       message := "New feature: You can now edit generated content";
       time := "2 hours ago"; read := false |};
    {| id := 3; type := "warning";
       message := "Your LinkedIn content generation is taking longer than expected";
       time := "1 day ago"; read := true |} ].

(** [{ ...notification, read: true }] *)
Definition markRead (n : Notification) : Notification :=
  {| id := id n; type := type n; message := message n; time := time n;
     read := true |}.

Definition unreadCount (notifications : list Notification) : nat :=
  length (List.filter (λ n, negb (read n)) notifications).

Definition handleMarkAsRead (id_ : Z) (notifications : list Notification)
  : list Notification :=
  (λ n, if decide (id n = id_) then markRead n else n) <$> notifications.

Definition handleMarkAllAsRead (notifications : list Notification)
  : list Notification :=
  markRead <$> notifications.

Definition handleDelete (id_ : Z) (notifications : list Notification)
  : list Notification :=
  List.filter (λ n, bool_decide (id n ≠ id_)) notifications.

End Notifications.

(** ** pages/Dashboard.tsx *)

Module Dashboard.


(** [jobs?.filter(p).length || 0] *)
Definition count (p : Job → bool) (jobs : option (list Job)) : nat :=
  match jobs with
  | Some js => length (List.filter p js)
  | None => 0
  end.



End Dashboard.

(** ** The Orchestrator *)

Module Orchestrator.

(** Modelled from the spec: the Orchestrator (the backend worker that
    drives a job to a terminal status) is not among the source files;
    only its clients are.  The definitions of this module follow the
    contract of the specification: a terminal job is left alone; every
    requested content type that has no Output yet is attempted once; a
    success appends one Output, a failure is recorded with its cause
    and does not stop the loop; afterwards the job is COMPLETED when
    it holds at least one Output and FAILED, with an aggregated
    message, when it holds none; the terminal transition sets
    [completed_at]. *)
Inductive GenResult :=
  | Generated (payload : string)
  | GenFailed (cause : string).

(** Modelled from the spec: COMPLETED and FAILED are the terminal
    statuses. *)
Definition is_terminal (s : JobStatus) : bool :=
  bool_decide (s = COMPLETED) || bool_decide (s = FAILED).

(** Modelled from the spec: a content type is "already present as an
    Output" when some Output carries it. *)
Definition has_output (t : ContentType) (os : list JobOutput) : bool :=
  bool_decide (Exists (λ o, content_type o = t) os).

(** Modelled from the spec: the Output of a successful generation
    holds inline text for a text kind and a storage locator for an
    image kind. *)
Definition new_output (id now : string) (t : ContentType) (payload : string)
  : JobOutput :=
  {| out_id := id;
     content_type := t;
     content := if MockData.isImage t then None else Some payload;
     file_path := if MockData.isImage t then Some payload else None;
     out_created_at := now;
     out_updated_at := now |}.

(** Modelled from the spec: the attempt loop over the requested
    content types.  [os] are the Outputs held so far, [fs] the
    failures recorded so far. *)
Fixpoint attempt (generate : ContentType → GenResult) (now : string)
    (types : list ContentType) (os : list JobOutput)
    (fs : list (ContentType * string))
  : list JobOutput * list (ContentType * string) :=
  match types with
  | [] => (os, fs)
  | t :: ts =>
      if has_output t os then attempt generate now ts os fs
      else match generate t with
           | Generated payload =>
               attempt generate now ts
                 (os ++ [new_output (pretty (length os)) now t payload]) fs
           | GenFailed cause =>
               attempt generate now ts os (fs ++ [(t, cause)])
           end
  end.

(** Modelled from the spec: one entry of the aggregated message names
    the content type and the cause. *)
Definition failure_entry (f : ContentType * string) : string :=
  ContentType_str f.1 +:+ ": " +:+ f.2.

(** Modelled from the spec: the entries are listed one after the
    other, separated by a semicolon. *)
Fixpoint join_entries (l : list string) : string :=
  match l with
  | [] => ""
  | e :: l' =>
      match l' with
      | [] => e
      | _ :: _ => e +:+ "; " +:+ join_entries l'
      end
  end.

(** Modelled from the spec: the aggregated error message of a job
    none of whose content types succeeded. *)
Definition aggregate (fs : list (ContentType * string)) : string :=
  "All content types failed: " +:+ join_entries (map failure_entry fs).

(** Modelled from the spec: the Orchestrator call on one job. *)
Definition orchestrate (generate : ContentType → GenResult) (now : string)
    (j : Job) : Job :=
  if is_terminal (status j) then j
  else
    let '(os, fs) := attempt generate now (content_types j) (outputs j) [] in
    {| job_id := job_id j;
       title := title j;
       status := match os with [] => FAILED | _ :: _ => COMPLETED end;
       created_at := created_at j;
       updated_at := now;
       completed_at := Some now;
       error_message :=
         match os with [] => Some (aggregate fs) | _ :: _ => None end;
       job_metadata := job_metadata j;
       outputs := os |}.

(** Modelled from the spec: the content types of a list whose
    generation fails, each with its cause ("which content types failed
    and why"). *)
Definition failing (generate : ContentType → GenResult)
    (types : list ContentType) : list (ContentType * string) :=
  omap (λ t, match generate t with
             | GenFailed c => Some (t, c)
             | Generated _ => None
             end) types.

End Orchestrator.

(** ** Auxiliary notions used in the statements *)

(** A path without its leading slash, when it has one. *)
Definition strip_slash (s : string) : string :=
  match s with
  | String "/" r => r
  | _ => s
  end.

(** The state of a backend after it served a list of requests. *)
Definition backend_after {S} (serve : S → Api.Request → S) (s : S)
    (reqs : list Api.Request) : S :=
  foldl serve s reqs.

(** [a] is at least as recent as [b]: both dates are valid and the
    one of [a] is not earlier. *)
Definition not_older (getTime : string → option Z) (a b : Job) : Prop :=
  ∃ ta tb, getTime (created_at a) = Some ta
           ∧ getTime (created_at b) = Some tb ∧ tb ≤ ta.

(** The [created_at] of a job parses to a valid date. *)
Definition valid_date (getTime : string → option Z) (j : Job) : Prop :=
  is_Some (getTime (created_at j)).

(** The image state once the candidate [url] loaded for an output,
    and once every candidate failed. *)
Definition loadedState (outputId url : string) (s : JobDetail.ImageState)
  : JobDetail.ImageState :=
  {| JobDetail.imageError := <[outputId := false]> (JobDetail.imageError s);
     JobDetail.imageUrls := <[outputId := url]> (JobDetail.imageUrls s);
     JobDetail.imageLoading := <[outputId := false]> (JobDetail.imageLoading s);
     JobDetail.successfulUrlFormat :=
       <[outputId := url]> (JobDetail.successfulUrlFormat s) |}.

Definition failedState (outputId : string) (s : JobDetail.ImageState)
  : JobDetail.ImageState :=
  {| JobDetail.imageError := <[outputId := true]> (JobDetail.imageError s);
     JobDetail.imageUrls := JobDetail.imageUrls s;
     JobDetail.imageLoading := <[outputId := false]> (JobDetail.imageLoading s);
     JobDetail.successfulUrlFormat := JobDetail.successfulUrlFormat s |}.

(** Two image states agree on the entries of an output. *)
Definition same_entries (outputId : string) (s s' : JobDetail.ImageState) : Prop :=
  JobDetail.imageError s' !! outputId = JobDetail.imageError s !! outputId
  ∧ JobDetail.imageUrls s' !! outputId = JobDetail.imageUrls s !! outputId
  ∧ JobDetail.imageLoading s' !! outputId = JobDetail.imageLoading s !! outputId
  ∧ JobDetail.successfulUrlFormat s' !! outputId
    = JobDetail.successfulUrlFormat s !! outputId.

(** The hashtags of a form are present, pairwise distinct and none
    of them is empty. *)
Definition hashtags_ok (f : ContentSubmissionForm) : Prop :=
  ∃ l, NewContent.hashtags_of (form_metadata f) = Some l
       ∧ NoDup l ∧ "" ∉ l.

(** The id [createMockJob] and [createNewMockJob] give to the [k]-th
    job. *)
Definition mockId (k : nat) : string := "job-" +:+ pretty k.


(** ** Sample inputs *)

Module Samples.

Definition outputDraw (n : nat) : MockData.OutputDraw :=
  {| MockData.draw_suffix := "k3x9q2" +:+ pretty n;
     MockData.draw_created := "2025-01-10T08:00:00.000Z";
     MockData.draw_updated := "2025-01-12T08:00:00.000Z" |}.

(** A draw: status index [i], the types in source order, [k + 1]
    types kept. *)
Definition jobDraw (i k : nat) : MockData.JobDraw :=
  {| MockData.draw_status := i;
     MockData.draw_shuffled := MockData.allTypes;
     MockData.draw_count := k;
     MockData.draw_createdAt := "2025-01-01T08:00:00.000Z";
     MockData.draw_updatedAt := "2025-01-05T08:00:00.000Z";
     MockData.draw_completedAt := "2025-01-13T08:00:00.000Z";
     MockData.draw_output := outputDraw |}.

(** A mock job that drew FAILED and one that drew COMPLETED, each
    with the single requested type [twitter]. *)
Definition failedMockJob : Job := MockData.createMockJob (jobDraw 3 0) "job-1".
Definition completedMockJob : Job := MockData.createMockJob (jobDraw 0 0) "job-2".

(** A pending job asking for a tweet and a thumbnail. *)
Definition pendingJob : Job :=
  (MockData.createNewMockJob "2025-02-01T10:00:00.000Z" "2025-02-01T10:00:00.001Z"
     {| MockData.data_title := "Launch notes";
        MockData.data_content_types := [TWITTER; THUMBNAIL];
        MockData.data_metadata := Some {[ "tone" := MStr "casual" ]} |} []).1.

(** A toy clock for examples: a timestamp is read as its length. *)
Definition lengthTime (s : string) : option Z := Some (Z.of_nat (String.length s)).

Definition jobAt (id created : string) (s : JobStatus) : Job :=
  {| job_id := id; title := "Post " +:+ id; status := s;
     created_at := created; updated_at := created;
     completed_at := None; error_message := None;
     job_metadata := ∅; outputs := [] |}.

Definition threeJobs : list Job :=
  [ jobAt "a" "1" PENDING; jobAt "b" "333" COMPLETED; jobAt "c" "22" COMPLETED ].

(** A generator whose text provider answers and whose image chain
    fails. *)
Definition textOnly (t : ContentType) : Orchestrator.GenResult :=
  if MockData.isImage t then Orchestrator.GenFailed "image provider timeout"
  else Orchestrator.Generated ("Post for " +:+ ContentType_str t).

(** The detail page showing the completed mock job, no edit open. *)
Definition detailState : JobDetail.State :=
  {| JobDetail.editingContent := ∅;
     JobDetail.editedContent := ∅;
     JobDetail.job := Some completedMockJob |}.

(** The id and the text of the tweet of the completed mock job. *)
Definition tweetId : string := "output-k3x9q20".

Definition tweetText : string :=
  "Mock content for twitter. This is a generated text for demonstration purposes.".


End Samples.

(* ===================================================================== *)
(** * Part II: properties                                                 *)
(* ===================================================================== *)

(** ** Mock data service *)

Section MockDataFacts.
Import MockData.

Lemma randomStatus_cases i :
  randomStatus i = COMPLETED ∨ randomStatus i = PROCESSING
  ∨ randomStatus i = PENDING ∨ randomStatus i = FAILED.
Proof. destruct (randomStatus i); auto. Qed.

Lemma createMockJob_content_types d id :
  content_types (createMockJob d id)
  = randomContentTypes (draw_shuffled d) (draw_count d).
Proof. reflexivity. Qed.

Lemma createMockJob_output_types d id :
  content_type <$> outputs (createMockJob d id)
  = randomContentTypes (draw_shuffled d) (draw_count d) ++ [THUMBNAIL].
Proof.
  cbn [createMockJob outputs]. rewrite fmap_app. cbn. f_equal.
  generalize (draw_output d).
  induction (randomContentTypes _ _) as [|t ts IH]; intros f; [done|].
  cbn. f_equal. apply (IH (f ∘ S)).
Qed.

Lemma outputs_of_type_fmap t os :
  outputs_of_type t os = length (filter (λ x, x = t) (content_type <$> os)).
Proof.
  unfold outputs_of_type. induction os as [|o os IH]; [done|].
  rewrite fmap_cons, !filter_cons. cbn.
  destruct (decide (content_type o = t)); cbn; by rewrite IH.
Qed.

Lemma filter_eq_absent {A} `{EqDecision A} (t : A) (l : list A) :
  t ∉ l → filter (λ x, x = t) l = [].
Proof.
  induction l as [|x l IH]; [done|]. intros Hn.
  rewrite filter_cons. destruct (decide (x = t)) as [->|]; [set_solver|].
  apply IH. set_solver.
Qed.

Lemma NoDup_count_le_1 {A} `{EqDecision A} (t : A) (l : list A) :
  NoDup l → (length (filter (λ x, x = t) l) ≤ 1)%nat.
Proof.
  induction 1 as [|x l Hx _ IH]; [cbn; lia|].
  rewrite filter_cons. destruct (decide (x = t)) as [->|]; [|done].
  cbn. rewrite filter_eq_absent by done. cbn. lia.
Qed.

Lemma randomContentTypes_NoDup shuffled k :
  shuffled ≡ₚ allTypes → NoDup (randomContentTypes shuffled k).
Proof.
  intros Hp. unfold randomContentTypes.
  assert (NoDup shuffled) as Hnd.
  { rewrite Hp. unfold allTypes. compute_done. }
  rewrite <- (take_drop (k + 1) shuffled) in Hnd.
  by apply NoDup_app in Hnd as [? _].
Qed.
End MockDataFacts.


(** C6: a job created by [createNewMockJob] is PENDING, has no
    outputs, no error message and no completion timestamp, and is put
    in front of the job list. *)
Theorem C6_new_job_is_pending
    (now1 now2 : string) (data : MockData.NewJobData) (mockJobs : list Job) :
  let r := MockData.createNewMockJob now1 now2 data mockJobs in
  status r.1 = PENDING
  ∧ outputs r.1 = []
  ∧ error_message r.1 = None
  ∧ completed_at r.1 = None
  ∧ r.2 = r.1 :: mockJobs.
Proof. cbn. done. Qed.

(** C2 fails as stated: a mock job that drew FAILED has no
    [completed_at]. *)
Lemma C2_counterexample :
  let j := Samples.failedMockJob in
  status j = FAILED
  ∧ ¬ ((error_message j ≠ None ↔ status j = FAILED)
       ∧ (completed_at j ≠ None ↔ status j = COMPLETED ∨ status j = FAILED)).
Proof.
  cbn. split; [done|]. intros [_ [_ H]]. apply H; [by right|done].
Qed.

(** C2 (amended): for every job the client builds ([createMockJob],
    [createNewMockJob]), [error_message] is non-null if and only if
    the status is FAILED, and [completed_at] is non-null if and only
    if the status is COMPLETED. *)
Theorem C2_error_and_completion_fields :
  (∀ d id, let j := MockData.createMockJob d id in
     (error_message j ≠ None ↔ status j = FAILED)
     ∧ (completed_at j ≠ None ↔ status j = COMPLETED))
  ∧ (∀ now1 now2 data mockJobs,
       let j := (MockData.createNewMockJob now1 now2 data mockJobs).1 in
       (error_message j ≠ None ↔ status j = FAILED)
       ∧ (completed_at j ≠ None ↔ status j = COMPLETED)).
Proof.
  split.
  - intros d id j. subst j. unfold MockData.createMockJob.
    cbn [error_message completed_at status].
    destruct (randomStatus_cases (MockData.draw_status d)) as [H|[H|[H|H]]];
      rewrite H; cbn; split; split; done.
  - intros. cbn. split; split; done.
Qed.

(** C3 fails as stated: a COMPLETED mock job that requested one
    content type holds two outputs. *)
Lemma C3_counterexample :
  let j := Samples.completedMockJob in
  status j = COMPLETED
  ∧ content_types j = [TWITTER]
  ∧ content_type <$> outputs j = [TWITTER; THUMBNAIL]
  ∧ ¬ ((length (outputs j) ≤ length (content_types j))%nat
       ∧ ∀ t, (outputs_of_type t (outputs j) ≤ 1)%nat).
Proof.
  intros j. do 3 (split; [reflexivity|]).
  intros [H _]. vm_compute in H. lia.
Qed.

(** C3 (amended): a mock job holds exactly one output more than its
    requested content types, the thumbnail that is always appended,
    and for every content type other than thumbnail it holds at most
    one output of that type. *)
Theorem C3_mock_job_outputs (d : MockData.JobDraw) (id : string) :
  MockData.draw_shuffled d ≡ₚ MockData.allTypes →
  let j := MockData.createMockJob d id in
  length (outputs j) = (length (content_types j) + 1)%nat
  ∧ ∀ t, t ≠ THUMBNAIL → (outputs_of_type t (outputs j) ≤ 1)%nat.
Proof.
  intros Hp j. split.
  - rewrite <- (length_fmap content_type (outputs j)).
    unfold j. rewrite createMockJob_output_types, createMockJob_content_types.
    by rewrite length_app.
  - intros t Ht. rewrite outputs_of_type_fmap.
    unfold j. rewrite createMockJob_output_types.
    rewrite filter_app, length_app.
    rewrite (filter_cons _ THUMBNAIL). destruct (decide (THUMBNAIL = t)); [done|].
    cbn. rewrite Nat.add_0_r.
    by apply NoDup_count_le_1, randomContentTypes_NoDup.
Qed.

Lemma C3_mock_job_outputs_witness :
  let j := MockData.createMockJob (Samples.jobDraw 0 2) "job-7" in
  MockData.draw_shuffled (Samples.jobDraw 0 2) ≡ₚ MockData.allTypes
  ∧ length (outputs j) = (length (content_types j) + 1)%nat
  ∧ ∀ t, t ≠ THUMBNAIL → (outputs_of_type t (outputs j) ≤ 1)%nat.
Proof.
  split; [reflexivity|].
  apply (C3_mock_job_outputs (Samples.jobDraw 0 2) "job-7"). reflexivity.
Defined.

(** ** Job polling *)


(** ** Editing an output on the detail page *)

(** Starting, changing and cancelling an edit touch the two editing
    dictionaries only: the job is left as it is and nothing is sent. *)
Lemma editing_keeps_job (outputId text : string) (st : JobDetail.State) :
  JobDetail.handleStartEditing outputId text st
  = ({| JobDetail.editingContent := <[outputId := true]> (JobDetail.editingContent st);
        JobDetail.editedContent := <[outputId := text]> (JobDetail.editedContent st);
        JobDetail.job := JobDetail.job st |}, [])
  ∧ JobDetail.job (JobDetail.handleContentChange outputId text st).1 = JobDetail.job st
  ∧ (JobDetail.handleContentChange outputId text st).2 = []
  ∧ JobDetail.job (JobDetail.handleCancelEditing outputId st).1 = JobDetail.job st
  ∧ (JobDetail.handleCancelEditing outputId st).2 = [].
Proof. done. Qed.

(** C7: saving an edit sends no request to the backend, so whatever
    the backend does with requests its state is unchanged; in the
    locally held job every field other than [outputs] keeps its value,
    the outputs keep their number and order, an output whose id is not
    the edited one is unchanged, and an output with the edited id
    changes in its [content] field only, which becomes the edited
    text. *)
Theorem C7_save_is_local (outputId : string) (st : JobDetail.State) :
  let r := JobDetail.handleSaveEditing outputId st in
  r.2 = []
  ∧ (∀ (S : Type) (serve : S → Api.Request → S) (s : S),
       backend_after serve s r.2 = s)
  ∧ JobDetail.editedContent r.1 = JobDetail.editedContent st
  ∧ match JobDetail.job st with
    | None => JobDetail.job r.1 = None
    | Some j =>
        ∃ j', JobDetail.job r.1 = Some j'
          ∧ job_id j' = job_id j ∧ title j' = title j ∧ status j' = status j
          ∧ created_at j' = created_at j ∧ updated_at j' = updated_at j
          ∧ completed_at j' = completed_at j
          ∧ error_message j' = error_message j
          ∧ job_metadata j' = job_metadata j
          ∧ length (outputs j') = length (outputs j)
          ∧ ∀ i o, outputs j !! i = Some o →
              ∃ o', outputs j' !! i = Some o'
                ∧ out_id o' = out_id o
                ∧ content_type o' = content_type o
                ∧ file_path o' = file_path o
                ∧ out_created_at o' = out_created_at o
                ∧ out_updated_at o' = out_updated_at o
                ∧ content o' =
                    (if decide (out_id o = outputId)
                     then JobDetail.editedContent st !! outputId
                     else content o)
                ∧ (out_id o ≠ outputId → o' = o)
    end.
Proof.
  cbn. split; [done|]. split; [done|]. split; [done|].
  destruct (JobDetail.job st) as [j|]; [|done].
  eexists. split; [done|]. cbn. repeat (split; [done|]).
  split; [by rewrite length_map|].
  intros i o Hi. eexists. split.
  { rewrite list_lookup_fmap, Hi. done. }
  destruct (decide (out_id o = outputId)); cbn; repeat (split; [done|]); done.
Qed.

(** ** String built-ins *)

Section StringFacts.
Import JS.

Lemma append_nil (b : string) : "" +:+ b = b.
Proof. reflexivity. Qed.

Lemma append_nil_r (a : string) : a +:+ "" = a.
Proof. induction a as [|x a IH]; [done|]. change (String x a +:+ "") with (String x (a +:+ "")). by rewrite IH. Qed.

Lemma append_cons (c : ascii) (a b : string) :
  String c a +:+ b = String c (a +:+ b).
Proof. reflexivity. Qed.

Lemma append_assoc (a b c : string) : (a +:+ b) +:+ c = a +:+ b +:+ c.
Proof.
  induction a as [|x a IH]; [done|]. rewrite !append_cons. by rewrite IH.
Qed.

Lemma append_length (a b : string) :
  String.length (a +:+ b) = (String.length a + String.length b)%nat.
Proof. induction a as [|x a IH]; simpl; [done|]. f_equal. exact IH. Qed.

Lemma startsWith_spec (s p : string) :
  startsWith s p = true ↔ ∃ r, s = p +:+ r.
Proof.
  revert s. induction p as [|c p IH]; intros s.
  - destruct s; cbn; (split; [by eexists|done]).
  - destruct s as [|d s]; cbn.
    + split; [done|]. by intros [r Hr].
    + rewrite andb_true_iff, bool_decide_eq_true, IH. split.
      * intros [-> [r ->]]. by exists r.
      * intros [r Hr]. rewrite append_cons in Hr.
        injection Hr as -> ->. split; [done|by exists r].
Qed.

Lemma str_drop_append (p r : string) : str_drop (String.length p) (p +:+ r) = r.
Proof. induction p as [|c p IH]; cbn; [by destruct r|done]. Qed.

Lemma str_drop_length (n : nat) (s : string) :
  String.length (str_drop n s) = (String.length s - n)%nat.
Proof.
  revert s. induction n as [|n IH]; intros s; cbn; [lia|].
  destruct s as [|c s]; cbn; [done|]. apply IH.
Qed.

Lemma str_take_all (n : nat) (s : string) :
  (String.length s ≤ n)%nat → str_take n s = s.
Proof.
  revert s. induction n as [|n IH]; intros [|c s]; cbn; intros H;
    try done; try lia.
  rewrite IH; [done|lia].
Qed.

Lemma includes_indexOf (s sub : string) :
  includes s sub = true ↔ 0 ≤ indexOf s sub.
Proof.
  induction s as [|c s IH]; cbn [indexOf includes].
  - destruct (startsWith "" sub); cbn; [done|]. split; [done|lia].
  - destruct (startsWith (String c s) sub); cbn [orb]; [done|].
    rewrite IH. destruct (Z.ltb_spec (indexOf s sub) 0); lia.
Qed.

(** [indexOf] finds the first occurrence: the string splits around
    [sub] at the returned position, and no split has a shorter
    prefix. *)
Lemma indexOf_spec (s sub : string) :
  0 ≤ indexOf s sub →
  ∃ pre rest,
    s = pre +:+ sub +:+ rest
    ∧ indexOf s sub = Z.of_nat (String.length pre)
    ∧ ∀ pre' rest', s = pre' +:+ sub +:+ rest' →
        (String.length pre ≤ String.length pre')%nat.
Proof.
  induction s as [|c s IH]; cbn [indexOf].
  - destruct (startsWith "" sub) eqn:Hs; [|lia]. intros _.
    apply startsWith_spec in Hs as [r Hr].
    exists "", r. cbn. split; [done|]. split; [done|]. intros; lia.
  - destruct (startsWith (String c s) sub) eqn:Hs.
    + intros _. apply startsWith_spec in Hs as [r Hr].
      exists "", r. cbn. split; [done|]. split; [done|]. intros; lia.
    + destruct (Z.ltb_spec (indexOf s sub) 0) as [|Hge]; [lia|]. intros _.
      destruct (IH Hge) as (pre & rest & Heq & Hix & Hmin).
      exists (String c pre), rest.
      split; [by rewrite append_cons, <- Heq|].
      split; [cbn [String.length]; lia|]. intros pre' rest' Heq'.
      destruct pre' as [|c' pre'].
      * rewrite append_nil in Heq'.
        assert (startsWith (String c s) sub = true) as Ht.
        { apply startsWith_spec. by exists rest'. }
        congruence.
      * rewrite append_cons in Heq'. injection Heq' as _ Heq'.
        cbn [String.length]. specialize (Hmin _ _ Heq'). lia.
Qed.

Lemma includes_spec (s sub : string) :
  includes s sub = true ↔ ∃ pre rest, s = pre +:+ sub +:+ rest.
Proof.
  split.
  - intros H. apply includes_indexOf, indexOf_spec in H
      as (pre & rest & Heq & _). by exists pre, rest.
  - intros (pre & rest & ->). induction pre as [|c pre IH].
    + rewrite append_nil.
      assert (startsWith (sub +:+ rest) sub = true) as Ht.
      { apply startsWith_spec. by exists rest. }
      destruct (sub +:+ rest); cbn [includes]; by rewrite Ht.
    + rewrite append_cons. cbn [includes]. rewrite IH. apply orb_true_r.
Qed.

Lemma substring_from_drop (s : string) (i : nat) :
  (i ≤ String.length s)%nat →
  substring_from s (Z.of_nat i) = str_drop i s.
Proof.
  intros Hi. unfold substring_from, substring, clamp.
  replace (Z.to_nat (Z.min (Z.max (Z.of_nat i) 0) (Z.of_nat (String.length s))))
    with i by lia.
  replace (Z.to_nat (Z.min (Z.max (Z.of_nat (String.length s)) 0)
                           (Z.of_nat (String.length s))))
    with (String.length s) by lia.
  rewrite Nat.min_l, Nat.max_r by lia.
  apply str_take_all. rewrite str_drop_length. lia.
Qed.

Lemma substring_to_take (s : string) (i : nat) :
  (i ≤ String.length s)%nat →
  substring s 0 (Z.of_nat i) = str_take i s.
Proof.
  intros Hi. unfold substring, clamp.
  replace (Z.to_nat (Z.min (Z.max 0 0) (Z.of_nat (String.length s))))
    with 0%nat by lia.
  replace (Z.to_nat (Z.min (Z.max (Z.of_nat i) 0) (Z.of_nat (String.length s))))
    with i by lia.
  rewrite Nat.min_l, Nat.max_r by lia. cbn. by rewrite Nat.sub_0_r.
Qed.

Lemma str_take_append (p r : string) : str_take (String.length p) (p +:+ r) = p.
Proof.
  induction p as [|c p IH]; [done|].
  rewrite append_cons. cbn. by rewrite IH.
Qed.

Lemma slice_from_1 (s : string) :
  startsWith s "/" = true → slice_from s 1 = strip_slash s.
Proof.
  intros H. apply startsWith_spec in H as [r ->].
  unfold slice_from. rewrite append_cons, append_nil. cbn [String.length].
  replace (Z.to_nat _) with 1%nat; [done|].
  destruct (Z.ltb_spec 1 0); lia.
Qed.

Lemma strip_slash_other (s : string) :
  startsWith s "/" = false → strip_slash s = s.
Proof.
  destruct s as [|c s]; [done|]. cbn [startsWith].
  assert (startsWith s "" = true) as -> by (by destruct s).
  rewrite andb_true_r. intros H%bool_decide_eq_false.
  destruct c as [[] [] [] [] [] [] [] []]; done.
Qed.
End StringFacts.

(** ** Storage URLs of an image output *)

Section StorageUrls.
Import JS JobDetail.

Lemma normalizedPath_plain (p : string) :
  includes p "storage/" = false → normalizedPath p = strip_slash p.
Proof.
  intros H. unfold normalizedPath. rewrite H.
  destruct (startsWith p "/") eqn:Hs.
  - by apply slice_from_1.
  - symmetry. by apply strip_slash_other.
Qed.

Lemma normalizedPath_storage (p : string) :
  includes p "storage/" = true →
  ∃ pre rest,
    p = pre +:+ "storage/" +:+ rest
    ∧ (∀ pre' rest', p = pre' +:+ "storage/" +:+ rest' →
         (String.length pre ≤ String.length pre')%nat)
    ∧ normalizedPath p = strip_slash rest.
Proof.
  intros H. pose proof H as Hi.
  apply includes_indexOf, indexOf_spec in Hi as (pre & rest & Heq & Hix & Hmin).
  exists pre, rest. split; [done|]. split; [done|]. subst p.
  unfold normalizedPath. rewrite H, Hix.
  replace (Z.of_nat (String.length pre) + 8)
    with (Z.of_nat (String.length (pre +:+ "storage/")))
    by (rewrite append_length; cbn; lia).
  rewrite <- append_assoc. rewrite substring_from_drop, str_drop_append
    by (rewrite (append_length _ rest); lia).
  destruct (startsWith rest "/") eqn:Hs.
  - by apply slice_from_1.
  - symmetry. by apply strip_slash_other.
Qed.

(** The server base is the configured base URL up to its first
    [/api], or all of it when it has none. *)
Lemma serverBaseUrl_spec (defaultsBaseURL : option string) :
  let baseUrl := or_else defaultsBaseURL "http://localhost:8001/api" in
  if includes baseUrl "/api"
  then ∃ rest, baseUrl = serverBaseUrl defaultsBaseURL +:+ "/api" +:+ rest
         ∧ ∀ pre' rest', baseUrl = pre' +:+ "/api" +:+ rest' →
             (String.length (serverBaseUrl defaultsBaseURL)
              ≤ String.length pre')%nat
  else serverBaseUrl defaultsBaseURL = baseUrl.
Proof.
  intros baseUrl. unfold serverBaseUrl. fold baseUrl.
  destruct (includes baseUrl "/api") eqn:H; [|done].
  apply includes_indexOf, indexOf_spec in H as (pre & rest & Heq & Hix & Hmin).
  rewrite Hix, substring_to_take
    by (rewrite Heq, append_length; lia).
  assert (str_take (String.length pre) baseUrl = pre) as ->.
  { rewrite Heq. apply str_take_append. }
  by exists rest.
Qed.

(** The shape of [split]: a first segment free of the separator,
    and, when there are more segments, a last one free of the
    separator that the input ends with, right after a separator. *)
Lemma split_shape (c : ascii) (s : string) :
  ∃ w ws, split c s = w :: ws
    ∧ includes w (String c "") = false
    ∧ match ws with
      | [] => s = w
      | _ :: _ =>
          ∃ f d, last ws = Some f
            ∧ includes f (String c "") = false
            ∧ s = (d +:+ String c "") +:+ f
      end.
Proof.
  induction s as [|x s IH].
  - exists "", []. by cbn.
  - destruct IH as (w & ws & Hsplit & Hw & Hws). cbn [split]. rewrite Hsplit.
    case_bool_decide as Hx.
    + subst x. exists "", (w :: ws). split; [done|]. split; [done|].
      destruct ws as [|w' ws].
      * subst s. exists w, "". by cbn.
      * destruct Hws as (f & d & Hl & Hf & ->).
        exists f, (String c d). split; [done|]. split; [done|].
        by rewrite !append_cons.
    + exists (String x w), ws. split; [done|]. split.
      { cbn [includes startsWith]. rewrite Hw.
        rewrite bool_decide_eq_false_2 by congruence. done. }
      destruct ws as [|w' ws].
      * by subst s.
      * destruct Hws as (f & d & Hl & Hf & ->).
        exists f, (String x d). split; [done|]. split; [done|].
        by rewrite !append_cons.
Qed.

(** [fileName path] is what follows the last slash of [path]. *)
Lemma fileName_spec (path : string) :
  includes (fileName path) "/" = false
  ∧ ∃ dir, path = dir +:+ fileName path
      ∧ (dir = "" ∨ ∃ d, dir = d +:+ "/").
Proof.
  unfold fileName, pop.
  destruct (split_shape "/" path) as (w & ws & -> & Hw & Hws).
  destruct ws as [|w' ws].
  - subst path. cbn. split; [done|]. exists "". by split; [|left].
  - destruct Hws as (f & d & Hl & Hf & ->).
    change (last (w :: w' :: ws)) with (last (w' :: ws)). rewrite Hl. cbn.
    split; [done|]. exists (d +:+ "/"). split; [done|]. right. by exists d.
Qed.
End StorageUrls.

(** C10: [getBaseStorageUrls] returns the empty list for the empty
    path, the path alone when it starts with http:// or https://, and
    otherwise eleven URLs in a fixed order: the server base followed
    by /storage/ or one of the five image folders and the normalized
    path, then by each of the five image folders and the file name of
    the normalized path.  The normalized path is what follows the
    first occurrence of storage/ in the path (the whole path when
    there is none), without its leading slash. *)
Theorem C10_getBaseStorageUrls (defaultsBaseURL : option string) (filePath : string) :
  let urls := JobDetail.getBaseStorageUrls defaultsBaseURL filePath in
  let server := JobDetail.serverBaseUrl defaultsBaseURL in
  let path := JobDetail.normalizedPath filePath in
  let file := JobDetail.fileName path in
  (filePath = "" → urls = [])
  ∧ (JS.startsWith filePath "http://" = true
     ∨ JS.startsWith filePath "https://" = true → urls = [filePath])
  ∧ (filePath ≠ "" → JS.startsWith filePath "http://" = false →
     JS.startsWith filePath "https://" = false →
     length urls = 11%nat
     ∧ urls =
         ((λ dir, server +:+ dir +:+ path) <$>
            ["/storage/"; "/storage/twitter_images/"; "/storage/instagram_images/";
             "/storage/linkedin_images/"; "/storage/facebook_images/";
             "/storage/thumbnails/"])
         ++ ((λ dir, server +:+ dir +:+ file) <$>
               ["/storage/twitter_images/"; "/storage/instagram_images/";
                "/storage/linkedin_images/"; "/storage/facebook_images/";
                "/storage/thumbnails/"]))
  ∧ (JS.includes filePath "storage/" = false → path = strip_slash filePath)
  ∧ (JS.includes filePath "storage/" = true →
     ∃ pre rest,
       filePath = pre +:+ "storage/" +:+ rest
       ∧ (∀ pre' rest', filePath = pre' +:+ "storage/" +:+ rest' →
            (String.length pre ≤ String.length pre')%nat)
       ∧ path = strip_slash rest)
  ∧ JS.includes file "/" = false
  ∧ ∃ dir, path = dir +:+ file ∧ (dir = "" ∨ ∃ d, dir = d +:+ "/").
Proof.
  intros urls server path file. subst urls.
  split; [by intros ->|]. split.
  { intros H. unfold JobDetail.getBaseStorageUrls.
    destruct (decide (filePath = "")) as [->|_].
    - by destruct H.
    - by destruct H as [-> | ->]; [|rewrite orb_true_r]. }
  split.
  { intros Hne H1 H2. unfold JobDetail.getBaseStorageUrls.
    rewrite decide_False, H1, H2 by done. by cbn. }
  split; [apply normalizedPath_plain|].
  split; [apply normalizedPath_storage|].
  apply fileName_spec.
Qed.

Example getBaseStorageUrls_relative :
  JobDetail.getBaseStorageUrls (Some "http://localhost:8001/api")
    "/app/storage/thumbnails/a.png"
  = [ "http://localhost:8001/storage/thumbnails/a.png";
      "http://localhost:8001/storage/twitter_images/thumbnails/a.png";
      "http://localhost:8001/storage/instagram_images/thumbnails/a.png";
      "http://localhost:8001/storage/linkedin_images/thumbnails/a.png";
      "http://localhost:8001/storage/facebook_images/thumbnails/a.png";
      "http://localhost:8001/storage/thumbnails/thumbnails/a.png";
      "http://localhost:8001/storage/twitter_images/a.png";
      "http://localhost:8001/storage/instagram_images/a.png";
      "http://localhost:8001/storage/linkedin_images/a.png";
      "http://localhost:8001/storage/facebook_images/a.png";
      "http://localhost:8001/storage/thumbnails/a.png" ].
Proof. reflexivity. Qed.

Example getBaseStorageUrls_absolute :
  JobDetail.getBaseStorageUrls None "https://picsum.photos/seed/job-1/800/600"
  = [ "https://picsum.photos/seed/job-1/800/600" ].
Proof. reflexivity. Qed.

(** ** The job list: filter, sort, page *)

Section SortFacts.
Context {A : Type} (cmp : A → A → Z).

Lemma sort_insert_perm (x : A) (l : list A) : JS.sort_insert cmp x l ≡ₚ x :: l.
Proof.
  induction l as [|y l IH]; cbn; [done|].
  destruct (cmp x y <=? 0); [done|].
  rewrite IH. apply Permutation_swap.
Qed.

Lemma sort_perm (l : list A) : JS.sort cmp l ≡ₚ l.
Proof.
  induction l as [|x l IH]; cbn; [done|].
  by rewrite sort_insert_perm, IH.
Qed.

(** On a list where the comparator agrees with a transitive order
    [R] ([cmp a b <= 0] exactly when [R a b], and one of [R a b],
    [R b a] always holds), the result of [sort] is ordered by [R]. *)
Context (R : A → A → Prop) (ok : A → Prop).
Hypothesis R_trans : ∀ a b c, R a b → R b c → R a c.
Hypothesis cmp_le : ∀ a b, ok a → ok b → cmp a b ≤ 0 → R a b.
Hypothesis cmp_gt : ∀ a b, ok a → ok b → 0 < cmp a b → R b a.

Lemma sort_insert_sorted (x : A) (l : list A) :
  ok x → Forall ok l → StronglySorted R l →
  StronglySorted R (JS.sort_insert cmp x l).
Proof.
  intros Hx Hl Hs. induction Hs as [|y l Hs IH Hy]; cbn.
  - by repeat constructor.
  - apply Forall_cons in Hl as [Hoky Hl].
    destruct (Z.leb_spec (cmp x y) 0) as [Hle|Hgt].
    + constructor; [by constructor|].
      constructor; [by apply cmp_le|].
      eapply Forall_impl; [exact Hy|]. intros z Hz.
      eapply R_trans; [|exact Hz]. by apply cmp_le.
    + constructor; [by apply IH|].
      rewrite sort_insert_perm. constructor; [by apply cmp_gt|done].
Qed.

Lemma sort_sorted (l : list A) :
  Forall ok l → StronglySorted R (JS.sort cmp l).
Proof.
  induction l as [|x l IH]; cbn; [constructor|].
  intros [Hx Hl]%Forall_cons. apply sort_insert_sorted; [done| |by apply IH].
  by rewrite sort_perm.
Qed.
End SortFacts.

Lemma slice_page_length {A} (l : list A) (start size : Z) :
  0 ≤ size → Z.of_nat (length (JS.slice l start (start + size))) ≤ size.
Proof.
  intros Hsize. unfold JS.slice. rewrite length_take.
  destruct (Z.ltb_spec start 0), (Z.ltb_spec (start + size) 0); lia.
Qed.

Section JobListFacts.
Variable toLowerCase : string → string.
Variable getTime : string → option Z.

Lemma matches_spec (st : JobList.State) (j : Job) :
  JobList.matches toLowerCase st j = true
  ↔ (JobList.statusFilter st = None
     ∨ JobList.statusFilter st = Some (status j))
    ∧ (JobList.searchTerm st = ""
       ∨ JS.includes (toLowerCase (title j))
           (toLowerCase (JobList.searchTerm st)) = true
       ∨ JS.includes (toLowerCase (job_id j))
           (toLowerCase (JobList.searchTerm st)) = true).
Proof.
  unfold JobList.matches.
  rewrite andb_true_iff, !orb_true_iff, !bool_decide_eq_true.
  intuition congruence.
Qed.

Lemma filteredJobs_perm (jobs : list Job) (st : JobList.State) :
  JobList.filteredJobs toLowerCase getTime (Some jobs) st
  ≡ₚ List.filter (JobList.matches toLowerCase st) jobs.
Proof. apply sort_perm. Qed.

Lemma filteredJobs_sorted (jobs : list Job) (st : JobList.State) :
  Forall (valid_date getTime) jobs →
  StronglySorted (not_older getTime)
    (JobList.filteredJobs toLowerCase getTime (Some jobs) st).
Proof.
  intros Hv. cbn [JobList.filteredJobs].
  apply (sort_sorted _ (not_older getTime) (valid_date getTime)).
  - intros a b c (ta & tb & Ha & Hb & Hab) (tb' & tc & Hb' & Hc & Hbc).
    exists ta, tc. repeat split; try done. simplify_eq. lia.
  - intros a b [ta Ha] [tb Hb]. unfold JobList.byCreatedDesc.
    rewrite Ha, Hb. cbn. intros H. exists ta, tb. repeat split; try done. lia.
  - intros a b [ta Ha] [tb Hb]. unfold JobList.byCreatedDesc.
    rewrite Ha, Hb. cbn. intros H. exists tb, ta. repeat split; try done. lia.
  - apply Forall_forall. intros j Hj.
    apply list_elem_of_In, filter_In in Hj as [Hj _].
    rewrite Forall_forall in Hv. by apply Hv, list_elem_of_In.
Qed.

(** C9: a job is in the filtered list exactly when it is in the job
    list, passes the status filter (['all'] or its own status) and
    passes the search (empty term, or the term occurs in its title
    or id after lower-casing both); filtering and sorting neither
    drop nor duplicate such a job; the filtered list is in
    descending order of [created_at]; and a page holds at most
    [rowsPerPage] jobs.  The job list is taken to carry valid dates
    and [rowsPerPage] to be non-negative. *)
Theorem C9_job_list (jobs : list Job) (st : JobList.State) :
  Forall (valid_date getTime) jobs →
  0 ≤ JobList.rowsPerPage st →
  let filtered := JobList.filteredJobs toLowerCase getTime (Some jobs) st in
  (∀ j, j ∈ filtered ↔
     j ∈ jobs
     ∧ (JobList.statusFilter st = None
        ∨ JobList.statusFilter st = Some (status j))
     ∧ (JobList.searchTerm st = ""
        ∨ JS.includes (toLowerCase (title j))
            (toLowerCase (JobList.searchTerm st)) = true
        ∨ JS.includes (toLowerCase (job_id j))
            (toLowerCase (JobList.searchTerm st)) = true))
  ∧ filtered ≡ₚ List.filter (JobList.matches toLowerCase st) jobs
  ∧ StronglySorted (not_older getTime) filtered
  ∧ Z.of_nat (length (JobList.paginatedJobs toLowerCase getTime (Some jobs) st))
    ≤ JobList.rowsPerPage st
  ∧ JobList.filteredJobs toLowerCase getTime None st = [].
Proof.
  intros Hv Hr filtered. split; [|split; [|split; [|split]]].
  - intros j. unfold filtered. rewrite filteredJobs_perm.
    rewrite list_elem_of_In, filter_In, <- list_elem_of_In, matches_spec. done.
  - apply filteredJobs_perm.
  - by apply filteredJobs_sorted.
  - unfold JobList.paginatedJobs. by apply slice_page_length.
  - done.
Qed.
End JobListFacts.

Lemma C9_job_list_witness :
  let st := JobList.handleStatusFilterChange (Some COMPLETED) JobList.initialState in
  (Forall (valid_date Samples.lengthTime) Samples.threeJobs
   ∧ 0 ≤ JobList.rowsPerPage st)
  ∧ StronglySorted (not_older Samples.lengthTime)
      (JobList.filteredJobs id Samples.lengthTime (Some Samples.threeJobs) st).
Proof.
  intros st.
  assert (Forall (valid_date Samples.lengthTime) Samples.threeJobs)
    as Hv by (repeat constructor; by eexists).
  assert (0 ≤ JobList.rowsPerPage st) as Hr by (cbn; lia).
  split; [done|].
  apply (C9_job_list id Samples.lengthTime Samples.threeJobs st Hv Hr).
Defined.

Example filteredJobs_threeJobs :
  job_id <$> JobList.filteredJobs id Samples.lengthTime (Some Samples.threeJobs)
               JobList.initialState
  = ["b"; "c"; "a"].
Proof. reflexivity. Qed.

(** ** Generation options of a submission *)

Section FormFacts.
Import NewContent.
Variable trim : string → string.

Lemma optionKeys_insert (k : string) (v : MetaValue) (md : gmap string MetaValue) :
  k ∈ optionKeys → dom md = optionKeys → dom (<[k := v]> md) = optionKeys.
Proof.
  intros Hk Hd. rewrite dom_insert_L, Hd.
  apply set_eq. intros x. rewrite elem_of_union, elem_of_singleton.
  split; [intros [->|]; done|by right].
Qed.

Lemma options_ok_initial : options_ok initialFormData.
Proof.
  eexists. split; [done|]. split; [compute_done|].
  repeat split; by eexists.
Qed.

Lemma options_ok_tone (v : string) (f : ContentSubmissionForm) :
  options_ok f → options_ok (handleToneChange v f).
Proof.
  intros (md & Hmd & Hd & (s1 & H1) & (s2 & H2) & (l & H3)).
  eexists. split; [done|]. rewrite Hmd. cbn [spread default]. split.
  - apply optionKeys_insert; [compute_done|done].
  - repeat split; eexists.
    + apply lookup_insert_eq.
    + rewrite lookup_insert_ne by done. exact H2.
    + rewrite lookup_insert_ne by done. exact H3.
Qed.

Lemma options_ok_style (v : string) (f : ContentSubmissionForm) :
  options_ok f → options_ok (handleStyleChange v f).
Proof.
  intros (md & Hmd & Hd & (s1 & H1) & (s2 & H2) & (l & H3)).
  eexists. split; [done|]. rewrite Hmd. cbn [spread default]. split.
  - apply optionKeys_insert; [compute_done|done].
  - repeat split; eexists.
    + rewrite lookup_insert_ne by done. exact H1.
    + apply lookup_insert_eq.
    + rewrite lookup_insert_ne by done. exact H3.
Qed.

Lemma options_ok_hashtags (l : list string) (f : ContentSubmissionForm) :
  options_ok f →
  options_ok (with_metadata f (<["hashtags" := MStrs l]> (spread (form_metadata f)))).
Proof.
  intros (md & Hmd & Hd & (s1 & H1) & (s2 & H2) & (l' & H3)).
  eexists. split; [done|]. rewrite Hmd. cbn [spread default]. split.
  - apply optionKeys_insert; [compute_done|done].
  - repeat split; eexists.
    + rewrite lookup_insert_ne by done. exact H1.
    + rewrite lookup_insert_ne by done. exact H2.
    + apply lookup_insert_eq.
Qed.

Lemma options_ok_step (f : ContentSubmissionForm) (e : Event) :
  options_ok f → options_ok (step trim f e).
Proof.
  intros Hf. destruct e as [v c|v|v|h|t|v|v]; cbn [step].
  - exact Hf.
  - by apply options_ok_tone.
  - by apply options_ok_style.
  - unfold handleAddHashtag.
    destruct (_ && _); [by apply options_ok_hashtags|done].
  - by apply options_ok_hashtags.
  - exact Hf.
  - exact Hf.
Qed.

Lemma options_ok_run (events : list Event) : options_ok (run trim events).
Proof.
  unfold run. generalize options_ok_initial.
  generalize initialFormData. induction events as [|e es IH]; intros f Hf; [done|].
  cbn [foldl]. by apply IH, options_ok_step.
Qed.

Lemma step_content_types (f : ContentSubmissionForm) (e : Event) :
  form_content_types (step trim f e)
  = match e with
    | ContentTypeChange v c => form_content_types (handleContentTypeChange v c f)
    | _ => form_content_types f
    end.
Proof.
  destruct e as [v c|v|v|h|t|v|v]; try done.
  cbn [step]. unfold handleAddHashtag. by destruct (_ && _).
Qed.

Lemma handleSubmit_metadata (f : ContentSubmissionForm) (md : gmap string MetaValue) :
  handleSubmit trim (with_metadata f md)
  = match handleSubmit trim f with
    | ShowError m => ShowError m
    | Send _ => Send (Api.SubmitContent (with_metadata f md))
    end.
Proof.
  unfold handleSubmit. cbn [with_metadata form_title form_content form_content_types].
  repeat case_decide; done.
Qed.
End FormFacts.

Lemma spread_metadata_content_types
    (cts : list ContentType) (md : gmap string MetaValue) :
  dom md ⊆ NewContent.optionKeys →
  MockData.spread_metadata cts (Some md) !! "content_types" = Some (MTypes cts).
Proof.
  intros Hd. unfold MockData.spread_metadata. cbn [default].
  rewrite lookup_union_r; [apply lookup_singleton_eq|].
  apply not_elem_of_dom. intros H%Hd. revert H. compute_done.
Qed.

(** C5 fails as stated: the options the form carries are keyed tone,
    hashtags and style; there is no key visualStyle. *)
Lemma C5_counterexample :
  let md := NewContent.spread (form_metadata NewContent.initialFormData) in
  md !! "visualStyle" = None
  ∧ md !! "style" = Some (MStr "modern")
  ∧ dom md ≠ ({[ "tone"; "visualStyle"; "hashtags" ]} : gset string).
Proof. cbn zeta. split; [compute_done|]. split; compute_done. Qed.

(** C5 (amended): after any sequence of form actions the options of
    the submission are exactly tone (a string), style (a string) and
    hashtags (a list of strings); whether the form is sent or rejected
    does not depend on them; no options action changes the requested
    content types; and a job created from such options requests
    exactly the submitted content types, starts PENDING and without
    outputs. *)
Theorem C5_generation_options (trim : string → string) :
  (∀ events, ∃ md,
     form_metadata (NewContent.run trim events) = Some md
     ∧ dom md = NewContent.optionKeys
     ∧ NewContent.well_shaped md)
  ∧ (∀ f md,
       NewContent.handleSubmit trim (NewContent.with_metadata f md)
       = match NewContent.handleSubmit trim f with
         | NewContent.ShowError m => NewContent.ShowError m
         | NewContent.Send _ =>
             NewContent.Send (Api.SubmitContent (NewContent.with_metadata f md))
         end)
  ∧ (∀ f e,
       form_content_types (NewContent.step trim f e)
       = match e with
         | NewContent.ContentTypeChange v c =>
             form_content_types (NewContent.handleContentTypeChange v c f)
         | _ => form_content_types f
         end)
  ∧ (∀ now1 now2 title cts md mockJobs,
       dom md ⊆ NewContent.optionKeys →
       let data := {| MockData.data_title := title;
                      MockData.data_content_types := cts;
                      MockData.data_metadata := Some md |} in
       let j := (MockData.createNewMockJob now1 now2 data mockJobs).1 in
       content_types j = cts ∧ status j = PENDING ∧ outputs j = []).
Proof.
  split; [apply options_ok_run|].
  split; [apply handleSubmit_metadata|].
  split; [apply step_content_types|].
  intros now1 now2 title cts md mockJobs Hd data j.
  split; [|done]. unfold j, content_types, data.
  cbn [MockData.createNewMockJob fst job_metadata
       MockData.data_content_types MockData.data_metadata].
  by rewrite spread_metadata_content_types.
Qed.

(** ** The completion rule of the Orchestrator *)

Section OrchestratorFacts.
Import Orchestrator.
Variable generate : ContentType → GenResult.
Variable now : string.

(** The attempt loop only ever appends to the Outputs it started
    with. *)
Lemma attempt_extends ts os fs :
  ∃ extra, (attempt generate now ts os fs).1 = os ++ extra.
Proof.
  revert os fs. induction ts as [|t ts IH]; intros os fs; cbn [attempt].
  - exists []. by rewrite app_nil_r.
  - destruct (has_output t os); [apply IH|].
    destruct (generate t) as [payload|cause]; [|apply IH].
    destruct (IH (os ++ [new_output (pretty (length os)) now t payload]) fs)
      as [extra ->].
    eexists. by rewrite <- app_assoc.
Qed.

(** Starting without Outputs, the loop ends without Outputs exactly
    when every requested content type fails, and then it has
    recorded each of these failures, in order. *)
Lemma attempt_nil ts fs :
  (attempt generate now ts [] fs).1 = []
  ↔ ∀ t, t ∈ ts → ∃ c, generate t = GenFailed c.
Proof.
  revert fs. induction ts as [|t ts IH]; intros fs; cbn [attempt].
  - split; [|done]. intros _ t Ht. by apply elem_of_nil in Ht.
  - replace (has_output t []) with false by (symmetry; compute_done).
    destruct (generate t) as [payload|cause] eqn:Hg.
    + split.
      * intros H. destruct (attempt_extends ts
          ([] ++ [new_output (pretty (length (@nil JobOutput))) now t payload]) fs)
          as [extra He].
        rewrite He in H. discriminate H.
      * intros H. destruct (H t) as [c Hc]; [apply elem_of_cons; by left|].
        congruence.
    + rewrite IH. split.
      * intros H t' [->|Ht']%elem_of_cons; [by eexists|by apply H].
      * intros H t' Ht'. apply H. apply elem_of_cons. by right.
Qed.

Lemma failing_cons t ts :
  failing generate (t :: ts)
  = match generate t with
    | GenFailed c => (t, c) :: failing generate ts
    | Generated _ => failing generate ts
    end.
Proof. unfold failing. cbn. by destruct (generate t). Qed.

Lemma attempt_nil_failures ts fs :
  (attempt generate now ts [] fs).1 = [] →
  (attempt generate now ts [] fs).2 = fs ++ failing generate ts.
Proof.
  revert fs. induction ts as [|t ts IH]; intros fs.
  - intros _. cbn. by rewrite app_nil_r.
  - rewrite failing_cons. cbn [attempt].
    replace (has_output t []) with false by (symmetry; compute_done).
    destruct (generate t) as [payload|cause] eqn:Hg.
    + intros H. destruct (attempt_extends ts
        ([] ++ [new_output (pretty (length (@nil JobOutput))) now t payload]) fs)
        as [extra He].
      rewrite He in H. discriminate H.
    + intros H. rewrite (IH _ H). by rewrite <- app_assoc.
Qed.

Lemma includes_join_entries (e : string) (es : list string) :
  e ∈ es → JS.includes (join_entries es) e = true.
Proof.
  induction es as [|x es IH]; [by intros ?%elem_of_nil|].
  intros [->|He]%elem_of_cons; apply includes_spec.
  - destruct es as [|y es]; cbn [join_entries].
    + exists "", "". by rewrite append_nil, append_nil_r.
    + by exists "", ("; " +:+ join_entries (y :: es)).
  - destruct es as [|y es]; [by apply elem_of_nil in He|].
    apply IH, includes_spec in He as (pre & rest & Heq).
    change (join_entries (x :: y :: es))
      with (x +:+ "; " +:+ join_entries (y :: es)).
    rewrite Heq. exists (x +:+ "; " +:+ pre), rest. by rewrite !append_assoc.
Qed.

Lemma includes_aggregate (fs : list (ContentType * string)) t c :
  (t, c) ∈ fs →
  JS.includes (aggregate fs) (ContentType_str t +:+ ": " +:+ c) = true.
Proof.
  intros H. unfold aggregate.
  assert (failure_entry (t, c) ∈ map failure_entry fs) as He
    by (by apply (list_elem_of_fmap_2 failure_entry)).
  apply includes_join_entries, includes_spec in He as (pre & rest & ->).
  apply includes_spec.
  exists ("All content types failed: " +:+ pre), rest.
  by rewrite append_assoc.
Qed.

Lemma failing_elem (ts : list ContentType) t c :
  t ∈ ts → generate t = GenFailed c → (t, c) ∈ failing generate ts.
Proof.
  intros Ht Hg. unfold failing. apply list_elem_of_omap.
  exists t. by rewrite Hg.
Qed.
End OrchestratorFacts.

(** C1: after the Orchestrator has attempted the requested content
    types of a non-terminal job, the job is terminal and
    [completed_at] is set; it is COMPLETED, without error message, as
    soon as it holds an Output; it is FAILED if and only if it holds
    none, which for a job that started without Outputs is the case
    exactly when every requested content type failed; and the error
    message of a FAILED job names each failed content type with its
    cause. *)
Theorem C1_completion_rule
    (generate : ContentType → Orchestrator.GenResult) (now : string) (j : Job) :
  Orchestrator.is_terminal (status j) = false →
  let j' := Orchestrator.orchestrate generate now j in
  (status j' = COMPLETED ∨ status j' = FAILED)
  ∧ completed_at j' = Some now
  ∧ (outputs j' ≠ [] → status j' = COMPLETED ∧ error_message j' = None)
  ∧ (status j' = FAILED ↔ outputs j' = [])
  ∧ (outputs j = [] →
     (status j' = FAILED ↔ ∀ t, t ∈ content_types j →
                             ∃ c, generate t = Orchestrator.GenFailed c))
  ∧ (status j' = FAILED →
     ∃ msg, error_message j' = Some msg
       ∧ ∀ t c, t ∈ content_types j →
           generate t = Orchestrator.GenFailed c →
           JS.includes msg (ContentType_str t +:+ ": " +:+ c) = true).
Proof.
  intros Hnt j'. unfold j', Orchestrator.orchestrate. rewrite Hnt.
  destruct (Orchestrator.attempt generate now (content_types j) (outputs j) [])
    as [os fs] eqn:Ha.
  cbn [status completed_at outputs error_message].
  assert (os = [] → outputs j = []) as Hstart.
  { intros ->. destruct (attempt_extends generate now (content_types j) (outputs j) [])
      as [extra He]. rewrite Ha in He. cbn in He. symmetry in He.
    by apply app_eq_nil in He as [? _]. }
  split; [destruct os; auto|]. split; [done|].
  split; [by destruct os|]. split; [by destruct os|]. split.
  - intros Hj. rewrite Hj in Ha.
    rewrite <- (attempt_nil generate now (content_types j) []), Ha. cbn.
    by destruct os.
  - intros Hf. destruct os as [|o os]; [|done]. eexists. split; [done|].
    intros t c Ht Hg. apply includes_aggregate.
    rewrite (Hstart eq_refl) in Ha.
    pose proof (attempt_nil_failures generate now (content_types j) []) as Hfs.
    rewrite Ha in Hfs. cbn in Hfs. rewrite Hfs by done.
    by apply failing_elem.
Qed.

Lemma C1_completion_rule_witness :
  let j' := Orchestrator.orchestrate Samples.textOnly "2025-02-01T10:00:09.000Z"
              Samples.pendingJob in
  Orchestrator.is_terminal (status Samples.pendingJob) = false
  ∧ (status j' = COMPLETED ∨ status j' = FAILED)
  ∧ completed_at j' = Some "2025-02-01T10:00:09.000Z".
Proof.
  split; [reflexivity|].
  pose proof (C1_completion_rule Samples.textOnly "2025-02-01T10:00:09.000Z"
                Samples.pendingJob eq_refl) as (H1 & H2 & _).
  split; [exact H1|exact H2].
Defined.

Example orchestrate_partial_failure :
  let j' := Orchestrator.orchestrate Samples.textOnly "2025-02-01T10:00:09.000Z"
              Samples.pendingJob in
  status j' = COMPLETED
  ∧ content_type <$> outputs j' = [TWITTER]
  ∧ error_message j' = None.
Proof. vm_compute. done. Qed.

Example orchestrate_total_failure :
  let j' := Orchestrator.orchestrate (λ _, Orchestrator.GenFailed "rate limit")
              "2025-02-01T10:00:09.000Z" Samples.pendingJob in
  status j' = FAILED
  ∧ outputs j' = []
  ∧ error_message j'
    = Some "All content types failed: twitter: rate limit; thumbnail: rate limit".
Proof. vm_compute. done. Qed.

(* ===================================================================== *)
(** * Part III: further properties of the client                          *)
(* ===================================================================== *)

(** ** Grouping the outputs into tabs *)

Section GroupFacts.
Import JobDetail.

Lemma group_get_add (t k : ContentType) (acc : Groups) :
  group_get t (group_add k acc)
  = match group_get t acc with
    | Some g => Some g
    | None => if decide (k = t) then Some [] else None
    end.
Proof.
  unfold group_add. induction acc as [|[k' g] acc IH]; cbn; [done|].
  by destruct (decide (k' = t)).
Qed.

Lemma group_get_push (t k : ContentType) (o : JobOutput) (acc : Groups) :
  group_get t (group_push k o acc)
  = match group_get t acc with
    | Some g => if decide (k = t) then Some (g ++ [o]) else Some g
    | None => None
    end.
Proof.
  induction acc as [|[k' g] acc IH]; cbn; [done|].
  destruct (decide (k' = k)) as [->|Hk]; cbn.
  - destruct (decide (k = t)) as [->|]; [done|].
    by destruct (group_get t acc).
  - destruct (decide (k' = t)) as [->|]; [|done].
    by rewrite decide_False by done.
Qed.

Lemma group_get_step (t : ContentType) (acc : Groups) (o : JobOutput) :
  group_get t (group_step acc o)
  = if decide (content_type o = t)
    then Some (default [] (group_get t acc) ++ [o])
    else group_get t acc.
Proof.
  unfold group_step. destruct (group_get (content_type o) acc) as [g|] eqn:Hg.
  - rewrite group_get_push.
    destruct (decide (content_type o = t)) as [<-|]; [by rewrite Hg|].
    by destruct (group_get t acc).
  - rewrite group_get_push, group_get_add.
    destruct (decide (content_type o = t)) as [<-|]; [by rewrite Hg|].
    by destruct (group_get t acc).
Qed.

Lemma group_get_foldl (t : ContentType) (os : list JobOutput) (acc : Groups) :
  group_get t (foldl group_step acc os)
  = match group_get t acc, filter (λ o, content_type o = t) os with
    | None, [] => None
    | None, l => Some l
    | Some g, l => Some (g ++ l)
    end.
Proof.
  revert acc. induction os as [|o os IH]; intros acc; cbn [foldl].
  - rewrite filter_nil. destruct (group_get t acc); [by rewrite app_nil_r|done].
  - rewrite IH, group_get_step, filter_cons.
    destruct (decide (content_type o = t)) as [Ht|Ht].
    + destruct (group_get t acc) as [g|]; cbn; [by rewrite <- app_assoc|done].
    + done.
Qed.

Lemma group_get_None (t : ContentType) (acc : Groups) :
  group_get t acc = None ↔ t ∉ acc.*1.
Proof.
  induction acc as [|[k g] acc IH]; cbn.
  { split; [|done]. by intros _ ?%elem_of_nil. }
  rewrite elem_of_cons. destruct (decide (k = t)) as [->|Hk].
  - split; [done|]. intros H. destruct H. by left.
  - rewrite IH. split; [intros H [?|?]; by subst|]. intros H H'. apply H. by right.
Qed.

Lemma group_push_keys (t : ContentType) (o : JobOutput) (acc : Groups) :
  (group_push t o acc).*1 = acc.*1.
Proof.
  induction acc as [|[k g] acc IH]; cbn; [done|].
  destruct (decide (k = t)); cbn; [done|]. by rewrite IH.
Qed.

Lemma group_step_keys_NoDup (acc : Groups) (o : JobOutput) :
  NoDup acc.*1 → NoDup (group_step acc o).*1.
Proof.
  intros Hnd. unfold group_step.
  destruct (group_get (content_type o) acc) as [g|] eqn:Hg;
    rewrite group_push_keys; [done|].
  unfold group_add. rewrite fmap_app. apply NoDup_app. split; [done|].
  split; [|by apply NoDup_singleton].
  intros x Hx ->%list_elem_of_singleton. by apply group_get_None in Hg.
Qed.

Lemma group_push_concat (t : ContentType) (o : JobOutput) (acc : Groups) :
  t ∈ acc.*1 → concat (group_push t o acc).*2 ≡ₚ o :: concat acc.*2.
Proof.
  induction acc as [|[k g] acc IH]; cbn; [by intros ?%elem_of_nil|].
  intros [->|Ht]%elem_of_cons.
  - rewrite decide_True by done. cbn.
    rewrite <- app_assoc. cbn. by rewrite <- Permutation_middle.
  - destruct (decide (k = t)) as [->|Hk]; cbn.
    + rewrite <- app_assoc. cbn. by rewrite <- Permutation_middle.
    + rewrite (IH Ht). by rewrite <- Permutation_middle.
Qed.

Lemma group_step_concat (acc : Groups) (o : JobOutput) :
  concat (group_step acc o).*2 ≡ₚ o :: concat acc.*2.
Proof.
  unfold group_step.
  destruct (group_get (content_type o) acc) as [g|] eqn:Hg.
  - apply group_push_concat. apply dec_stable. intros Hn.
    apply group_get_None in Hn. congruence.
  - rewrite group_push_concat.
    + unfold group_add. rewrite fmap_app, concat_app. cbn. by rewrite !app_nil_r.
    + unfold group_add. rewrite fmap_app. apply elem_of_app. right.
      by apply list_elem_of_singleton.
Qed.

Lemma foldl_group_step_facts (os : list JobOutput) (acc : Groups) :
  NoDup acc.*1 →
  NoDup (foldl group_step acc os).*1
  ∧ concat (foldl group_step acc os).*2 ≡ₚ concat acc.*2 ++ os.
Proof.
  revert acc. induction os as [|o os IH]; intros acc Hnd; cbn [foldl].
  - by rewrite app_nil_r.
  - destruct (IH (group_step acc o)) as [H1 H2];
      [by apply group_step_keys_NoDup|].
    split; [done|]. rewrite H2, group_step_concat.
    by rewrite <- Permutation_middle.
Qed.
End GroupFacts.

(** X1: the reducer that groups the outputs of a job puts under each
    content type exactly the outputs of that type, in their original
    order; a content type without outputs has no group; and the groups
    together hold every output exactly once. *)
Theorem X1_groupedOutputs (j : Job) :
  ∃ g, JobDetail.groupedOutputs (Some j) = Some g
    ∧ (∀ t, JobDetail.group_get t g
            = match filter (λ o, content_type o = t) (outputs j) with
              | [] => None
              | l => Some l
              end)
    ∧ concat g.*2 ≡ₚ outputs j.
Proof.
  eexists. split; [done|]. split.
  - intros t. by rewrite group_get_foldl.
  - by destruct (foldl_group_step_facts (outputs j) []) as [_ ->]; [constructor|].
Qed.

(** X2: the tabs of the detail page are pairwise distinct, there is a
    tab for a content type exactly when the job has an output of that
    type, so there are never more tabs than outputs; without a job
    there is no tab. *)
Theorem X2_contentTypes_tabs (j : Job) :
  NoDup (JobDetail.contentTypes (Some j))
  ∧ (∀ t, t ∈ JobDetail.contentTypes (Some j)
          ↔ ∃ o, o ∈ outputs j ∧ content_type o = t)
  ∧ (length (JobDetail.contentTypes (Some j)) ≤ length (outputs j))%nat
  ∧ JobDetail.contentTypes None = [].
Proof.
  unfold JobDetail.contentTypes. cbn.
  destruct (foldl_group_step_facts (outputs j) []) as [Hnd Hperm]; [constructor|].
  assert (∀ t, t ∈ (foldl JobDetail.group_step [] (outputs j)).*1
               ↔ ∃ o, o ∈ outputs j ∧ content_type o = t) as Hmem.
  { intros t. split.
    - intros Ht.
      destruct (JobDetail.group_get t (foldl JobDetail.group_step [] (outputs j)))
        as [g|] eqn:Hg; [|by apply group_get_None in Hg].
      rewrite group_get_foldl in Hg. cbn in Hg.
      destruct (filter _ _) as [|o l] eqn:Hf; [done|].
      assert (o ∈ filter (λ o, content_type o = t) (outputs j)) as Hin
        by (rewrite Hf; by left).
      apply list_elem_of_filter in Hin as [? ?]. by exists o.
    - intros (o & Ho & Ht).
      destruct (decide (t ∈ (foldl JobDetail.group_step [] (outputs j)).*1))
        as [|Hn]; [done|]. exfalso.
      apply group_get_None in Hn. rewrite group_get_foldl in Hn. cbn in Hn.
      assert (o ∈ filter (λ o, content_type o = t) (outputs j)) as Hin
        by (by apply list_elem_of_filter).
      destruct (filter _ _); [by apply elem_of_nil in Hin|done]. }
  split; [done|]. split; [done|]. split; [|done].
  rewrite <- (length_fmap content_type (outputs j)).
  apply submseteq_length, NoDup_submseteq; [done|].
  intros t (o & Ho & <-)%Hmem. by apply list_elem_of_fmap_2.
Qed.

(** ** Finding the URL of an image *)

Section ImageFacts.
Import JobDetail.
Variable defaultsBaseURL : option string.
Variable loads : string → bool.

Lemma loadedState_started (outputId url : string) (s : ImageState) :
  setImageLoading outputId false
    (setImageUrls outputId url
       (setSuccessfulUrlFormat outputId url
          (setImageLoading outputId true (setImageError outputId false s))))
  = loadedState outputId url s.
Proof.
  unfold loadedState, setImageLoading, setImageUrls, setSuccessfulUrlFormat,
    setImageError. cbn. f_equal. apply insert_insert_eq.
Qed.

Lemma loadedState_absorb (outputId url : string) (s : ImageState) :
  loadedState outputId url
    (setImageLoading outputId true (setImageError outputId false s))
  = loadedState outputId url s.
Proof. unfold loadedState. cbn. f_equal; apply insert_insert_eq. Qed.

Lemma failedState_absorb (outputId : string) (s : ImageState) :
  failedState outputId
    (setImageLoading outputId true (setImageError outputId false s))
  = failedState outputId s.
Proof. unfold failedState. cbn. f_equal; apply insert_insert_eq. Qed.

(** With enough fuel the recursion ends, at the first candidate from
    [currentAttempt] on that loads, or after the last candidate. *)
Lemma tryAlternativeImageUrl_fuel_spec (fuel : nat) (outputId filePath : string)
    (k : nat) (s : ImageState) :
  (length (getBaseStorageUrls defaultsBaseURL filePath) - k < fuel)%nat →
  tryAlternativeImageUrl_fuel defaultsBaseURL loads fuel outputId filePath k s
  = Some (match list_find (λ u, loads u = true)
                  (drop k (getBaseStorageUrls defaultsBaseURL filePath)) with
          | Some (i, url) =>
              (loadedState outputId url s,
               take (S i) (drop k (getBaseStorageUrls defaultsBaseURL filePath)))
          | None =>
              (failedState outputId s,
               drop k (getBaseStorageUrls defaultsBaseURL filePath))
          end).
Proof.
  revert k s. induction fuel as [|fuel IH]; intros k s Hfuel; [lia|].
  cbn [tryAlternativeImageUrl_fuel].
  destruct (decide (filePath = "")) as [->|Hne].
  { change (getBaseStorageUrls defaultsBaseURL "") with (@nil string).
    by rewrite drop_nil. }
  set (urls := getBaseStorageUrls defaultsBaseURL filePath) in *.
  destruct (decide (length urls ≤ k)%nat) as [Hk|Hk].
  { by rewrite drop_ge by done. }
  destruct (lookup_lt_is_Some_2 urls k) as [url Hurl]; [lia|].
  rewrite (nth_lookup_Some _ _ _ _ Hurl), (drop_S _ _ _ Hurl).
  cbn [list_find]. destruct (loads url) eqn:Hl.
  - rewrite decide_True by done. cbn. by rewrite loadedState_started.
  - rewrite decide_False by congruence. rewrite IH by lia.
    replace (k + 1)%nat with (S k) by lia.
    destruct (list_find _ (drop (S k) urls)) as [[i u]|]; cbn.
    + by rewrite loadedState_absorb.
    + by rewrite failedState_absorb.
Qed.

Lemma tryAlternativeImageUrl_spec (outputId filePath : string) (s : ImageState) :
  tryAlternativeImageUrl defaultsBaseURL loads outputId filePath 0 s
  = Some (match list_find (λ u, loads u = true)
                  (getBaseStorageUrls defaultsBaseURL filePath) with
          | Some (i, url) =>
              (loadedState outputId url s,
               take (S i) (getBaseStorageUrls defaultsBaseURL filePath))
          | None =>
              (failedState outputId s, getBaseStorageUrls defaultsBaseURL filePath)
          end).
Proof.
  unfold tryAlternativeImageUrl.
  rewrite tryAlternativeImageUrl_fuel_spec by lia. by rewrite drop_0.
Qed.
End ImageFacts.

(** X3: looking for the image of an output always comes to an end.
    The candidate URLs are requested in the order of
    [getBaseStorageUrls]; at the first one that loads the search
    stops, that URL becomes the image URL and the remembered format,
    and the error and loading flags are cleared; when none loads
    (or the path is empty) every candidate was requested once, the
    error flag is set and the loading flag cleared. *)
Theorem X3_tryAlternativeImageUrl
    (defaultsBaseURL : option string) (loads : string → bool)
    (outputId filePath : string) (s : JobDetail.ImageState) :
  let urls := JobDetail.getBaseStorageUrls defaultsBaseURL filePath in
  JobDetail.tryAlternativeImageUrl defaultsBaseURL loads outputId filePath 0 s
  = Some (match list_find (λ u, loads u = true) urls with
          | Some (i, url) => (loadedState outputId url s, take (S i) urls)
          | None => (failedState outputId s, urls)
          end).
Proof.
  intros urls. apply tryAlternativeImageUrl_spec.
Qed.

(** X4: a search for the image of an output requests at most eleven
    URLs, never the same candidate position twice; it ends with the
    error flag set exactly when no candidate loads, and otherwise with
    a candidate that loads as image URL, which is the last URL it
    requested. *)
Theorem X4_tryAlternativeImageUrl_outcome
    (defaultsBaseURL : option string) (loads : string → bool)
    (outputId filePath : string) (s : JobDetail.ImageState) :
  let urls := JobDetail.getBaseStorageUrls defaultsBaseURL filePath in
  ∃ s' requested,
    JobDetail.tryAlternativeImageUrl defaultsBaseURL loads outputId filePath 0 s
    = Some (s', requested)
    ∧ requested `prefix_of` urls
    ∧ (length requested ≤ 11)%nat
    ∧ JobDetail.imageLoading s' !! outputId = Some false
    ∧ (JobDetail.imageError s' !! outputId = Some true
       ↔ ∀ u, u ∈ urls → loads u = false)
    ∧ (JobDetail.imageError s' !! outputId = Some false →
       ∃ u, loads u = true ∧ last requested = Some u
            ∧ JobDetail.imageUrls s' !! outputId = Some u
            ∧ JobDetail.successfulUrlFormat s' !! outputId = Some u).
Proof.
  intros urls. rewrite tryAlternativeImageUrl_spec. fold urls.
  assert (length urls ≤ 11)%nat as Hlen.
  { unfold urls, JobDetail.getBaseStorageUrls.
    repeat case_match; cbn; lia. }
  destruct (list_find (λ u, loads u = true) urls) as [[i url]|] eqn:Hfind.
  - apply list_find_Some in Hfind as (Hi & Hl & Hbefore).
    eexists _, _. split; [done|]. split; [apply prefix_take|].
    split; [rewrite length_take; lia|].
    split; [apply lookup_insert_eq|]. split.
    + cbn. rewrite lookup_insert_eq. split; [done|]. intros Hall.
      rewrite Hall in Hl; [done|]. by eapply list_elem_of_lookup_2.
    + intros _. exists url. split; [done|]. split.
      * rewrite (take_S_r _ _ _ Hi). by rewrite last_snoc.
      * split; apply lookup_insert_eq.
  - eexists _, _. split; [done|]. split; [done|]. split; [done|].
    split; [apply lookup_insert_eq|]. split.
    + cbn. rewrite lookup_insert_eq. split; [|done]. intros _ u Hu.
      rewrite list_find_None, Forall_forall in Hfind.
      specialize (Hfind u Hu). by destruct (loads u).
    + cbn. by rewrite lookup_insert_eq.
Qed.

(** X5: a search for the image of one output leaves the entries of
    every other output, in all four dictionaries of the image state,
    as they were. *)
Theorem X5_tryAlternativeImageUrl_frame
    (defaultsBaseURL : option string) (loads : string → bool)
    (outputId filePath : string) (s : JobDetail.ImageState) :
  ∃ s' requested,
    JobDetail.tryAlternativeImageUrl defaultsBaseURL loads outputId filePath 0 s
    = Some (s', requested)
    ∧ ∀ other, other ≠ outputId → same_entries other s s'.
Proof.
  rewrite tryAlternativeImageUrl_spec.
  destruct (list_find _ _) as [[i url]|]; eexists _, _; (split; [done|]);
    intros other Hne; unfold same_entries; cbn;
    rewrite ?lookup_insert_ne by done; done.
Qed.

(** X6: handling an image error always comes to an end and touches
    the entries of that output only.  When a URL already loaded for
    the output, that URL is shown again and nothing is requested; when
    the output has no usable file path, the error flag is set and
    nothing is requested. *)
Theorem X6_handleImageError
    (defaultsBaseURL : option string) (loads : string → bool)
    (job : option Job) (outputId : string) (s : JobDetail.ImageState) :
  ∃ s' requested,
    JobDetail.handleImageError defaultsBaseURL loads job outputId s
    = Some (s', requested)
    ∧ (∀ other, other ≠ outputId → same_entries other s s')
    ∧ (∀ u, JobDetail.successfulUrlFormat s !! outputId = Some u → u ≠ "" →
         requested = []
         ∧ JobDetail.imageUrls s' !! outputId = Some u
         ∧ JobDetail.imageError s' = JobDetail.imageError s)
    ∧ (JS.truthy (JobDetail.successfulUrlFormat s !! outputId) = false →
       (∀ j o, job = Some j → o ∈ outputs j → out_id o = outputId →
               JS.truthy (file_path o) = false) →
       requested = [] ∧ JobDetail.imageError s' !! outputId = Some true).
Proof.
  unfold JobDetail.handleImageError.
  destruct (JS.truthy (JobDetail.successfulUrlFormat s !! outputId)) eqn:Hs.
  - eexists _, _. split; [done|]. split.
    { intros other Hne. unfold same_entries. cbn.
      by rewrite lookup_insert_ne by done. }
    split; [|done]. intros u Hu _. rewrite Hu. cbn.
    split; [done|]. split; [apply lookup_insert_eq|done].
  - assert (∀ u, JobDetail.successfulUrlFormat s !! outputId = Some u → u = "")
      as Hempty.
    { intros u Hu. rewrite Hu in Hs. cbn in Hs.
      by apply bool_decide_eq_false, dec_stable in Hs. }
    destruct (job ≫= _) as [o|] eqn:Ho.
    + destruct job as [j|]; [|done]. cbn in Ho.
      apply find_some in Ho as [Hin Hid].
      apply bool_decide_eq_true in Hid. apply list_elem_of_In in Hin.
      destruct (JS.truthy (file_path o)) eqn:Hp.
      * rewrite tryAlternativeImageUrl_spec.
        destruct (list_find _ _) as [[i url]|]; eexists _, _;
          (split; [done|]); (split; [|split]).
        -- intros other Hne. unfold same_entries. cbn.
           by rewrite ?lookup_insert_ne by done.
        -- intros u Hu Hne. by apply Hempty in Hu.
        -- intros _ Hall. rewrite (Hall j o) in Hp; done.
        -- intros other Hne. unfold same_entries. cbn.
           by rewrite ?lookup_insert_ne by done.
        -- intros u Hu Hne. by apply Hempty in Hu.
        -- intros _ Hall. rewrite (Hall j o) in Hp; done.
      * eexists _, _. split; [done|]. split; [|split].
        -- intros other Hne. unfold same_entries. cbn.
           by rewrite ?lookup_insert_ne by done.
        -- intros u Hu Hne. by apply Hempty in Hu.
        -- intros _ _. split; [done|]. apply lookup_insert_eq.
    + eexists _, _. split; [done|]. split; [|split].
      * intros other Hne. unfold same_entries. cbn.
        by rewrite ?lookup_insert_ne by done.
      * intros u Hu Hne. by apply Hempty in Hu.
      * intros _ _. split; [done|]. apply lookup_insert_eq.
Qed.

(** ** Editing sessions on the detail page *)

Section EditingFacts.
Import JobDetail.

Lemma with_outputs_same (j : Job) : with_outputs j (outputs j) = j.
Proof. by destruct j. Qed.

Lemma with_content_same (o : JobOutput) : with_content o (content o) = o.
Proof. by destruct o. Qed.

Lemma save_outputs (outputId : string) (st : State) (j : Job) :
  job st = Some j →
  job (handleSaveEditing outputId st).1
  = Some (with_outputs j
            ((λ output, if decide (out_id output = outputId)
                        then with_content output (editedContent st !! outputId)
                        else output) <$> outputs j)).
Proof. intros Hj. cbn. by rewrite Hj. Qed.
End EditingFacts.

(** X7: saving is idempotent: saving the same output a second time
    changes nothing, neither in the job nor in the editing state. *)
Theorem X7_handleSaveEditing_idempotent (outputId : string) (st : JobDetail.State) :
  (JobDetail.handleSaveEditing outputId
     (JobDetail.handleSaveEditing outputId st).1).1
  = (JobDetail.handleSaveEditing outputId st).1.
Proof.
  unfold JobDetail.handleSaveEditing. cbn. f_equal; [apply insert_insert_eq|].
  destruct (JobDetail.job st) as [j|]; [|done]. cbn. f_equal.
  unfold JobDetail.with_outputs. cbn. f_equal.
  rewrite <- list_fmap_compose. apply list_fmap_ext. intros i o _. cbn.
  destruct (decide (out_id o = outputId)) as [Ho|Ho]; cbn.
  - by rewrite decide_True by done.
  - by rewrite decide_False by done.
Qed.

(** X8: opening the editor on an output with its current text and
    saving right away leaves the job exactly as it was. *)
Theorem X8_start_then_save (outputId text : string) (st : JobDetail.State) :
  (∀ j o, JobDetail.job st = Some j → o ∈ outputs j →
          out_id o = outputId → content o = Some text) →
  JobDetail.job
    (JobDetail.handleSaveEditing outputId
       (JobDetail.handleStartEditing outputId text st).1).1
  = JobDetail.job st.
Proof.
  intros Hcontent. cbn. destruct (JobDetail.job st) as [j|] eqn:Hj; [|done].
  f_equal. etrans; [|apply with_outputs_same]. f_equal.
  etrans; [|apply list_fmap_id].
  apply list_fmap_ext. intros i o Hi. cbn.
  destruct (decide (out_id o = outputId)) as [Ho|Ho]; [|done].
  rewrite lookup_insert_eq.
  rewrite <- (Hcontent j o eq_refl (list_elem_of_lookup_2 _ _ _ Hi) Ho).
  apply with_content_same.
Qed.

(** X9: after opening the editor on an output, typing any number of
    versions and saving, every output with that id holds the last
    version typed (the opening text when nothing was typed), and the
    other outputs are unchanged. *)
Theorem X9_edit_session (outputId text : string) (typed : list string)
    (st : JobDetail.State) (j : Job) :
  JobDetail.job st = Some j →
  let st1 := (JobDetail.handleStartEditing outputId text st).1 in
  let st2 := foldl (λ s v, (JobDetail.handleContentChange outputId v s).1) st1 typed in
  ∃ j', JobDetail.job (JobDetail.handleSaveEditing outputId st2).1 = Some j'
    ∧ length (outputs j') = length (outputs j)
    ∧ ∀ i o, outputs j !! i = Some o →
        outputs j' !! i
        = Some (if decide (out_id o = outputId)
                then JobDetail.with_content o (Some (default text (last typed)))
                else o).
Proof.
  intros Hj st1 st2.
  assert (JobDetail.job st2 = Some j
          ∧ JobDetail.editedContent st2 !! outputId
            = Some (default text (last typed))) as [Hj2 He2].
  { unfold st2. clear st2.
    assert (JobDetail.job st1 = Some j
            ∧ JobDetail.editedContent st1 !! outputId = Some text) as H
      by (split; [done|apply lookup_insert_eq]).
    revert H. generalize st1. generalize text.
    induction typed as [|v typed IH]; intros t s [H1 H2]; [done|].
    cbn [foldl]. rewrite last_cons.
    destruct (IH v (JobDetail.handleContentChange outputId v s).1) as [H3 H4].
    { split; [done|apply lookup_insert_eq]. }
    split; [done|]. rewrite H4. by destruct (last typed). }
  rewrite (save_outputs _ _ _ Hj2). eexists. split; [done|]. cbn.
  split; [by rewrite length_fmap|].
  intros i o Hi. rewrite list_lookup_fmap, Hi. cbn. by rewrite He2.
Qed.

(** ** Pages of the job list *)

Lemma slice_take_drop {A} (l : list A) (s r : nat) :
  JS.slice l (Z.of_nat s) (Z.of_nat s + Z.of_nat r) = take r (drop s l).
Proof.
  unfold JS.slice.
  destruct (Z.ltb_spec (Z.of_nat s) 0); [lia|].
  destruct (Z.ltb_spec (Z.of_nat s + Z.of_nat r) 0); [lia|].
  destruct (decide (length l ≤ s)%nat) as [Hs|Hs].
  - rewrite (drop_ge l s) by done. rewrite drop_ge by lia. by rewrite !take_nil.
  - replace (Z.to_nat (Z.of_nat s `min` Z.of_nat (length l))) with s by lia.
    replace (Z.to_nat _) with (r `min` length (drop s l))%nat
      by (rewrite length_drop; lia).
    rewrite <- (take_take (drop s l) r (length (drop s l))).
    by rewrite (take_ge (drop s l) (length (drop s l))).
Qed.

Lemma concat_pages {A} (l : list A) (r n : nat) :
  concat ((λ p, take r (drop (p * r) l)) <$> seq 0 n) = take (n * r) l.
Proof.
  induction n as [|n IH]; [done|].
  rewrite seq_S, fmap_app, concat_app, IH. cbn. rewrite app_nil_r.
  rewrite take_take_drop. f_equal. lia.
Qed.

Section PageFacts.
Variable toLowerCase : string → string.
Variable getTime : string → option Z.

Lemma paginatedJobs_take_drop (jobs : option (list Job)) (st : JobList.State)
    (p r : nat) :
  JobList.page st = Z.of_nat p → JobList.rowsPerPage st = Z.of_nat r →
  JobList.paginatedJobs toLowerCase getTime jobs st
  = take r (drop (p * r) (JobList.filteredJobs toLowerCase getTime jobs st)).
Proof.
  intros Hp Hr. unfold JobList.paginatedJobs. rewrite Hp, Hr.
  replace (Z.of_nat p * Z.of_nat r) with (Z.of_nat (p * r)) by lia.
  apply slice_take_drop.
Qed.

(** X10: the pages of the job list, taken one after the other, give
    back the filtered list: every job that passes the filter is on
    exactly one page, and the pages keep the order. *)
Theorem X10_pages_cover (jobs : option (list Job)) (st : JobList.State) (n : nat) :
  0 ≤ JobList.rowsPerPage st →
  Z.of_nat (length (JobList.filteredJobs toLowerCase getTime jobs st))
  ≤ Z.of_nat n * JobList.rowsPerPage st →
  concat ((λ p, JobList.paginatedJobs toLowerCase getTime jobs
                  (JobList.handleChangePage (Z.of_nat p) st)) <$> seq 0 n)
  = JobList.filteredJobs toLowerCase getTime jobs st.
Proof.
  intros Hr Hn.
  set (r := Z.to_nat (JobList.rowsPerPage st)).
  rewrite (list_fmap_ext _
    (λ p, take r (drop (p * r) (JobList.filteredJobs toLowerCase getTime jobs st)))
    (seq 0 n) ).
  - rewrite concat_pages. apply take_ge. unfold r. nia.
  - intros i p _. rewrite (paginatedJobs_take_drop _ _ p r); [|done|cbn; lia].
    by destruct jobs.
Qed.

(** X11: changing the status filter or the number of rows per page
    goes back to the first page, which then shows the newest
    [rowsPerPage] jobs that pass the filter; the table is empty only
    when no job passes. *)
Theorem X11_filter_change_shows_first_page
    (jobs : option (list Job)) (st : JobList.State)
    (s : option JobStatus) (rows : Z) :
  0 < JobList.rowsPerPage st → 0 < rows →
  let st1 := JobList.handleStatusFilterChange s st in
  let st2 := JobList.handleChangeRowsPerPage rows st in
  JobList.paginatedJobs toLowerCase getTime jobs st1
  = take (Z.to_nat (JobList.rowsPerPage st))
      (JobList.filteredJobs toLowerCase getTime jobs st1)
  ∧ JobList.paginatedJobs toLowerCase getTime jobs st2
    = take (Z.to_nat rows) (JobList.filteredJobs toLowerCase getTime jobs st)
  ∧ (JobList.paginatedJobs toLowerCase getTime jobs st1 = []
     ↔ JobList.filteredJobs toLowerCase getTime jobs st1 = [])
  ∧ (JobList.paginatedJobs toLowerCase getTime jobs st2 = []
     ↔ JobList.filteredJobs toLowerCase getTime jobs st = []).
Proof.
  intros Hr Hrows st1 st2.
  assert (JobList.paginatedJobs toLowerCase getTime jobs st1
          = take (Z.to_nat (JobList.rowsPerPage st))
              (JobList.filteredJobs toLowerCase getTime jobs st1)) as H1.
  { rewrite (paginatedJobs_take_drop _ _ 0 (Z.to_nat (JobList.rowsPerPage st)));
      [done|done|cbn; lia]. }
  assert (JobList.paginatedJobs toLowerCase getTime jobs st2
          = take (Z.to_nat rows)
              (JobList.filteredJobs toLowerCase getTime jobs st)) as H2.
  { rewrite (paginatedJobs_take_drop _ _ 0 (Z.to_nat rows)); [|done|cbn; lia].
    by destruct jobs. }
  split; [done|]. split; [done|]. rewrite H1, H2.
  assert (∀ (l : list Job) k, (0 < k)%nat → take k l = [] ↔ l = []) as Htake.
  { intros [|x l] [|k] Hk; cbn; try done; lia. }
  split; apply Htake; lia.
Qed.
End PageFacts.

(** ** Hashtags and platforms of the submission form *)

Section HashtagFacts.
Import NewContent.
Variable trim : string → string.

Lemma hashtags_of_insert_other (k : string) (v : MetaValue)
    (md : option (gmap string MetaValue)) :
  k ≠ "hashtags" →
  hashtags_of (Some (<[k := v]> (spread md))) = hashtags_of md.
Proof.
  intros Hk. unfold hashtags_of.
  change (spread (Some (<[k := v]> (spread md)))) with (<[k := v]> (spread md)).
  by rewrite lookup_insert_ne.
Qed.

Lemma hashtags_of_insert (l : list string) (md : gmap string MetaValue) :
  hashtags_of (Some (<["hashtags" := MStrs l]> md)) = Some l.
Proof.
  unfold hashtags_of.
  change (spread (Some (<["hashtags" := MStrs l]> md)))
    with (<["hashtags" := MStrs l]> md).
  by rewrite lookup_insert_eq.
Qed.

Lemma hashtags_ok_step (f : ContentSubmissionForm) (e : Event) :
  hashtags_ok f → hashtags_ok (step trim f e).
Proof.
  intros (l & Hl & Hnd & Hne). destruct e as [v c|v|v|h|t|v|v]; cbn [step].
  7: by exists l.
  6: by exists l.
  - by exists l.
  - exists l. split; [|done]. cbn. by rewrite hashtags_of_insert_other.
  - exists l. split; [|done]. cbn. by rewrite hashtags_of_insert_other.
  - unfold handleAddHashtag. rewrite Hl. cbn [default].
    destruct (bool_decide (trim h ≠ "")) eqn:H1; [|by exists l].
    destruct (bool_decide (trim h ∈ l)) eqn:H2; [by exists l|].
    apply bool_decide_eq_true in H1. apply bool_decide_eq_false in H2.
    cbn. exists (l ++ [trim h]). split; [apply hashtags_of_insert|]. split.
    + apply NoDup_app. split; [done|]. split; [|apply NoDup_singleton].
      by intros x Hx ->%list_elem_of_singleton.
    + intros [?|?%list_elem_of_singleton]%elem_of_app; [done|congruence].
  - unfold handleRemoveHashtag. rewrite Hl.
    eexists. split; [apply hashtags_of_insert|]. split.
    + by apply NoDup_ListNoDup, List.NoDup_filter, NoDup_ListNoDup.
    + intros H%list_elem_of_In%filter_In. destruct H as [H _].
      by apply list_elem_of_In in H.
Qed.

Lemma hashtags_ok_run (events : list Event) : hashtags_ok (run trim events).
Proof.
  unfold run.
  assert (hashtags_ok initialFormData) as H0.
  { exists []. split; [done|]. split; [constructor|]. by intros ?%elem_of_nil. }
  revert H0. generalize initialFormData.
  induction events as [|e es IH]; intros f Hf; [done|].
  cbn [foldl]. by apply IH, hashtags_ok_step.
Qed.
End HashtagFacts.

(** X12: whatever the user does with the form, its hashtags stay
    pairwise distinct and none of them is empty. *)
Theorem X12_hashtags_distinct (trim : string → string)
    (events : list NewContent.Event) :
  ∃ l, NewContent.hashtags_of (form_metadata (NewContent.run trim events)) = Some l
       ∧ NoDup l ∧ "" ∉ l.
Proof. apply hashtags_ok_run. Qed.

(** X13: adding a hashtag that is new and not blank and removing it
    again gives back the form as it was; adding a blank hashtag or one
    that is already there changes nothing. *)
Theorem X13_add_then_remove_hashtag (trim : string → string) (hashtag : string)
    (f : ContentSubmissionForm) (md : gmap string MetaValue) (l : list string) :
  form_metadata f = Some md →
  md !! "hashtags" = Some (MStrs l) →
  (trim hashtag ≠ "" → trim hashtag ∉ l →
   NewContent.handleRemoveHashtag (trim hashtag)
     (NewContent.handleAddHashtag trim hashtag f) = f)
  ∧ (trim hashtag = "" ∨ trim hashtag ∈ l →
     NewContent.handleAddHashtag trim hashtag f = f).
Proof.
  intros Hmd Hl.
  assert (NewContent.hashtags_of (form_metadata f) = Some l) as Hh
    by (unfold NewContent.hashtags_of; rewrite Hmd; cbn; by rewrite Hl).
  split.
  - intros Hne Hnew. unfold NewContent.handleAddHashtag. rewrite Hh.
    rewrite bool_decide_eq_true_2, bool_decide_eq_false_2 by done. cbn [andb negb].
    unfold NewContent.handleRemoveHashtag. cbn [form_metadata NewContent.with_metadata].
    rewrite hashtags_of_insert. rewrite Hmd. unfold NewContent.spread. cbn.
    rewrite insert_insert_eq.
    rewrite List.filter_app. cbn [List.filter].
    rewrite bool_decide_eq_false_2 by (intros H; by apply H).
    rewrite app_nil_r.
    assert (List.filter (λ t, bool_decide (t ≠ trim hashtag)) l = l) as ->.
    { apply forallb_filter_id, forallb_forall. intros x Hx.
      apply bool_decide_eq_true. intros ->. by apply Hnew, list_elem_of_In. }
    rewrite (insert_id md "hashtags" (MStrs l)) by done.
    destruct f; cbn in *. by rewrite Hmd.
  - intros Hor. unfold NewContent.handleAddHashtag. rewrite Hh.
    destruct Hor as [He|Hin].
    + by rewrite bool_decide_eq_false_2 by (intros H; by apply H).
    + rewrite (bool_decide_eq_true_2 (trim hashtag ∈ l)) by done.
      by rewrite andb_false_r.
Qed.

(** X14: unchecking a platform removes it from the requested content
    types and keeps the others in order; checking a platform that was
    not requested and unchecking it again gives back the form as it
    was. *)
Theorem X14_check_then_uncheck (value : ContentType) (f : ContentSubmissionForm) :
  form_content_types (NewContent.handleContentTypeChange value false f)
  = List.filter (λ type, bool_decide (type ≠ value)) (form_content_types f)
  ∧ (value ∉ form_content_types (NewContent.handleContentTypeChange value false f))
  ∧ (value ∉ form_content_types f →
     NewContent.handleContentTypeChange value false
       (NewContent.handleContentTypeChange value true f) = f).
Proof.
  split; [done|]. split.
  - cbn. intros H%list_elem_of_In%filter_In. destruct H as [_ H].
    by apply bool_decide_eq_true in H.
  - intros Hv. unfold NewContent.handleContentTypeChange. cbn.
    rewrite List.filter_app. cbn [List.filter].
    rewrite bool_decide_eq_false_2 by (intros H; by apply H).
    rewrite app_nil_r.
    assert (List.filter (λ t, bool_decide (t ≠ value)) (form_content_types f)
            = form_content_types f) as ->.
    { apply forallb_filter_id, forallb_forall. intros x Hx.
      apply bool_decide_eq_true. intros ->. by apply Hv, list_elem_of_In. }
    by destruct f.
Qed.

(** ** The mock job store *)

Section MockStoreFacts.
Import MockData.

Lemma mockId_inj (a b : nat) : mockId a = mockId b → a = b.
Proof.
  unfold mockId. intros H. apply (inj (String.app "job-")) in H.
  by apply (inj pretty) in H.
Qed.

#[local] Instance mockId_Inj : Inj (=) (=) mockId.
Proof. intros a b. apply mockId_inj. Qed.

Lemma generateMockJobs_ids (draws : nat → JobDraw) (count : nat) :
  job_id <$> generateMockJobs draws count = mockId <$> seq 1 count.
Proof.
  unfold generateMockJobs. rewrite <- list_fmap_compose.
  rewrite <- (fmap_S_seq 0), <- list_fmap_compose.
  apply list_fmap_ext. intros i k _. cbn. unfold mockId. do 2 f_equal. lia.
Qed.

Lemma mockIds_NoDup (n : nat) : NoDup (mockId <$> seq 1 n).
Proof. apply (NoDup_fmap_2 mockId), NoDup_seq. Qed.

(** The ids of the store are job-1 ... job-n, in some order. *)
Lemma createNewMockJob_ids (now1 now2 : string) (data : NewJobData) (l : list Job) :
  job_id <$> l ≡ₚ mockId <$> seq 1 (length l) →
  job_id <$> (createNewMockJob now1 now2 data l).2
  ≡ₚ mockId <$> seq 1 (length (createNewMockJob now1 now2 data l).2).
Proof.
  intros H. unfold createNewMockJob. cbn [snd]. rewrite fmap_cons.
  cbn [length job_id]. rewrite seq_S, fmap_app, <- H.
  change (mockId <$> [(1 + length l)%nat]) with [mockId (1 + length l)].
  rewrite <- Permutation_cons_append.
  replace (1 + length l)%nat with (length l + 1)%nat by lia. done.
Qed.

Lemma createAll_ids (calls : list (string * string * NewJobData)) (l : list Job) :
  job_id <$> l ≡ₚ mockId <$> seq 1 (length l) →
  job_id <$> createAll calls l ≡ₚ mockId <$> seq 1 (length (createAll calls l))
  ∧ length (createAll calls l) = (length l + length calls)%nat.
Proof.
  revert l. induction calls as [|c calls IH]; intros l H; cbn [createAll foldl].
  - split; [done|]. cbn. lia.
  - destruct (IH (createNewMockJob c.1.1 c.1.2 c.2 l).2) as [H1 H2].
    { by apply createNewMockJob_ids. }
    split; [done|]. unfold createAll in H2. rewrite H2. cbn. lia.
Qed.

Lemma getMockJob_cons (x : Job) (l : list Job) (id : string) :
  getMockJob (x :: l) id
  = if decide (job_id x = id) then Some x else getMockJob l id.
Proof.
  unfold getMockJob. cbn [list_find].
  destruct (decide (job_id x = id)); [done|].
  by destruct (list_find _ l) as [[i y]|].
Qed.

Lemma getMockJob_absent (l : list Job) (id : string) :
  id ∉ job_id <$> l → getMockJob l id = None.
Proof.
  induction l as [|x l IH]; [done|]. rewrite fmap_cons, not_elem_of_cons.
  intros [Hx Hl]. rewrite getMockJob_cons, decide_False by done. by apply IH.
Qed.

Lemma getMockJob_found (l : list Job) (j : Job) :
  NoDup (job_id <$> l) → j ∈ l → getMockJob l (job_id j) = Some j.
Proof.
  induction l as [|x l IH]; [by intros _ ?%elem_of_nil|].
  rewrite fmap_cons, NoDup_cons. intros [Hx Hnd] [->|Hj]%elem_of_cons.
  - by rewrite getMockJob_cons, decide_True.
  - rewrite getMockJob_cons, decide_False; [by apply IH|].
    intros Heq. apply Hx. rewrite Heq. by apply list_elem_of_fmap_2.
Qed.

Lemma store_NoDup (l : list Job) :
  job_id <$> l ≡ₚ mockId <$> seq 1 (length l) → NoDup (job_id <$> l).
Proof. intros ->. apply mockIds_NoDup. Qed.
End MockStoreFacts.

(** X15: [generateMockJobs(count)] builds [count] jobs whose ids are
    job-1, ..., job-count in this order, all different. *)
Theorem X15_generateMockJobs_ids (draws : nat → MockData.JobDraw) (count : nat) :
  length (MockData.generateMockJobs draws count) = count
  ∧ job_id <$> MockData.generateMockJobs draws count = mockId <$> seq 1 count
  ∧ NoDup (job_id <$> MockData.generateMockJobs draws count).
Proof.
  split; [|split].
  - unfold MockData.generateMockJobs. by rewrite length_fmap, length_seq.
  - apply generateMockJobs_ids.
  - rewrite generateMockJobs_ids. apply mockIds_NoDup.
Qed.

(** X16: in the generated store, looking up job-(i+1) finds the job
    generated at position [i] when [i < count], and finds nothing
    otherwise. *)
Theorem X16_getMockJob_generated
    (draws : nat → MockData.JobDraw) (count i : nat) :
  MockData.getMockJob (MockData.generateMockJobs draws count) (mockId (i + 1))
  = if decide (i < count)%nat
    then Some (MockData.createMockJob (draws i) (mockId (i + 1)))
    else None.
Proof.
  destruct (decide (i < count)%nat) as [Hi|Hi].
  - apply (getMockJob_found _ (MockData.createMockJob (draws i) (mockId (i + 1)))).
    + rewrite generateMockJobs_ids. apply mockIds_NoDup.
    + unfold MockData.generateMockJobs.
      apply (list_elem_of_fmap_2'
               (λ i, MockData.createMockJob (draws i) ("job-" +:+ pretty (i + 1)%nat))
               _ i); [|done].
      apply elem_of_seq. lia.
  - apply getMockJob_absent. rewrite generateMockJobs_ids.
    intros (k & Hk%mockId_inj & Hin%elem_of_seq)%list_elem_of_fmap. lia.
Qed.

(** X17: however many jobs are created on top of the generated store,
    the store holds one job per call more, and its ids stay pairwise
    distinct: they are job-1, ..., job-n for the n jobs it holds. *)
Theorem X17_created_ids_distinct (draws : nat → MockData.JobDraw) (count : nat)
    (calls : list (string * string * MockData.NewJobData)) :
  let store := MockData.createAll calls (MockData.generateMockJobs draws count) in
  length store = (count + length calls)%nat
  ∧ job_id <$> store ≡ₚ mockId <$> seq 1 (length store)
  ∧ NoDup (job_id <$> store).
Proof.
  intros store.
  destruct (createAll_ids calls (MockData.generateMockJobs draws count)) as [H1 H2].
  { rewrite generateMockJobs_ids.
    unfold MockData.generateMockJobs. by rewrite length_fmap, length_seq. }
  split; [|split].
  - unfold store. rewrite H2. unfold MockData.generateMockJobs.
    by rewrite length_fmap, length_seq.
  - done.
  - by apply store_NoDup.
Qed.

(** X18: every job of the store, generated or created later, is the
    one [getMockJob] returns for its id; a job just created is found
    under its id, and the lookups of all other ids are as before. *)
Theorem X18_getMockJob_finds_each_job (draws : nat → MockData.JobDraw) (count : nat)
    (calls : list (string * string * MockData.NewJobData)) :
  let store := MockData.createAll calls (MockData.generateMockJobs draws count) in
  Forall (λ j, MockData.getMockJob store (job_id j) = Some j) store
  ∧ ∀ now1 now2 data,
      let r := MockData.createNewMockJob now1 now2 data store in
      MockData.getMockJob r.2 (job_id r.1) = Some r.1
      ∧ ∀ id, id ≠ job_id r.1 →
          MockData.getMockJob r.2 id = MockData.getMockJob store id.
Proof.
  intros store. split.
  - apply Forall_forall. intros j Hj. apply getMockJob_found; [|done].
    apply store_NoDup.
    apply (createAll_ids calls (MockData.generateMockJobs draws count)).
    rewrite generateMockJobs_ids.
    unfold MockData.generateMockJobs. by rewrite length_fmap, length_seq.
  - intros now1 now2 data r. split.
    + unfold r. cbn [MockData.createNewMockJob fst snd].
      by rewrite getMockJob_cons, decide_True.
    + intros id Hid. unfold r in *. cbn [MockData.createNewMockJob fst snd] in *.
      by rewrite getMockJob_cons, decide_False.
Qed.

(** ** Sessions: token, interceptors, protected routes *)


Lemma truthy_Some (s : string) : JS.truthy (Some s) = bool_decide (s ≠ "").
Proof. done. Qed.

Lemma or_else_Some (s d : string) :
  JS.or_else (Some s) d = if decide (s = "") then d else s.
Proof. done. Qed.

(** X19: a 401 answer from the backend logs the user out: the token
    is dropped from the storage (every other key is kept), the page
    goes to /login, later requests get no Authorization header from
    the interceptor, and protected routes redirect to /login.  Any
    other error leaves storage and location as they are. *)
Theorem X19_unauthorized_logs_out (localStorage : Api.Storage) (location : string)
    (config : Api.Config) (status : option Z) :
  let r := Api.responseErrorInterceptor (Some 401) localStorage location in
  r.2 = "/login"
  ∧ r.1 !! "token" = None
  ∧ (∀ key, key ≠ "token" → r.1 !! key = localStorage !! key)
  ∧ Api.requestInterceptor r.1 config = config
  ∧ Auth.ProtectedRoute r.1 = Auth.Navigate "/login"
  ∧ (status ≠ Some 401 →
     Api.responseErrorInterceptor status localStorage location
     = (localStorage, location)).
Proof.
  intros r. unfold r, Api.responseErrorInterceptor.
  rewrite (decide_True (P := Some 401 = Some 401)) by done. cbn [fst snd].
  split; [done|]. split; [apply lookup_delete_eq|]. split.
  { intros key Hkey. by rewrite lookup_delete_ne. }
  unfold Api.requestInterceptor, Auth.ProtectedRoute.
  rewrite lookup_delete_eq. cbn [JS.truthy]. split; [done|]. split; [done|].
  intros Hs. by rewrite decide_False.
Qed.

(** X20: after a login that returned a non-empty token, every request
    carries that token as bearer, replacing any Authorization header
    of its own, with its URL and other headers untouched, and
    protected routes are shown; after logging out from the layout no
    Authorization header is added and protected routes redirect. *)
Theorem X20_login_authorizes_requests (email access_token : string)
    (localStorage : Api.Storage) (config : Api.Config) :
  access_token ≠ "" →
  let ls := (Auth.loginSubmit email (Auth.LoginOk access_token) localStorage).1.1 in
  let sent := Api.requestInterceptor ls config in
  Api.headers sent !! "Authorization" = Some ("Bearer " +:+ access_token)
  ∧ (∀ h, h ≠ "Authorization" →
          Api.headers sent !! h = Api.headers config !! h)
  ∧ Api.url sent = Api.url config
  ∧ Auth.ProtectedRoute ls = Auth.Children
  ∧ Api.requestInterceptor (Auth.handleLogout ls).1 config = config
  ∧ Auth.ProtectedRoute (Auth.handleLogout ls).1 = Auth.Navigate "/login".
Proof.
  intros Htok ls sent.
  assert (ls !! "token" = Some access_token) as Hls.
  { unfold ls. cbn [Auth.loginSubmit fst].
    rewrite !lookup_insert_ne by done. apply lookup_insert_eq. }
  assert ((Auth.handleLogout ls).1 !! "token" = None) as Hout.
  { cbn [Auth.handleLogout fst].
    rewrite !lookup_delete_ne by done. apply lookup_delete_eq. }
  unfold sent, Api.requestInterceptor, Auth.ProtectedRoute.
  rewrite Hout, Hls, truthy_Some, bool_decide_eq_true_2 by done.
  cbn [JS.truthy Api.headers Api.url default].
  split; [apply lookup_insert_eq|]. split; [|done].
  intros h Hh. by rewrite lookup_insert_ne.
Qed.


(** X22: logging out from the layout erases everything a login
    stored: the storage is the same as if the user had logged out
    without that login, the user menu is back to its default name and
    address, and every key other than token, userName and userEmail
    keeps its value. *)
Theorem X22_logout_undoes_login (email access_token : string)
    (localStorage : Api.Storage) :
  let ls := (Auth.loginSubmit email (Auth.LoginOk access_token) localStorage).1.1 in
  Auth.handleLogout ls = Auth.handleLogout localStorage
  ∧ Auth.userName (Auth.handleLogout ls).1 = "User"
  ∧ Auth.userEmail (Auth.handleLogout ls).1 = "user@example.com"
  ∧ ∀ key, key ≠ "token" → key ≠ "userName" → key ≠ "userEmail" →
      (Auth.handleLogout ls).1 !! key = localStorage !! key.
Proof.
  intros ls.
  assert ((Auth.handleLogout ls).1 = (Auth.handleLogout localStorage).1) as Heq.
  { unfold ls. cbn [Auth.loginSubmit Auth.handleLogout fst]. apply map_eq. intros key.
    destruct (decide (key = "userEmail")) as [->|H1];
      [by rewrite !lookup_delete_eq|].
    rewrite !(lookup_delete_ne _ "userEmail") by done.
    destruct (decide (key = "userName")) as [->|H2];
      [by rewrite !lookup_delete_eq|].
    rewrite !(lookup_delete_ne _ "userName") by done.
    destruct (decide (key = "token")) as [->|H3];
      [by rewrite !lookup_delete_eq|].
    rewrite !(lookup_delete_ne _ "token") by done.
    by rewrite !lookup_insert_ne. }
  split; [unfold Auth.handleLogout in *; cbn [fst] in Heq; by rewrite Heq|].
  rewrite Heq. unfold Auth.userName, Auth.userEmail. cbn [Auth.handleLogout fst].
  rewrite (lookup_delete_ne _ "userEmail" "userName") by done.
  rewrite !lookup_delete_eq.
  split; [done|]. split; [done|].
  intros key H1 H2 H3. by rewrite !lookup_delete_ne.
Qed.

(** X23: the [useAuth] hook and [ProtectedRoute] agree on who is
    logged in: on mount the hook reports an authenticated user
    exactly when protected routes are shown.  The hook's [login]
    accepts any e-mail address and password, contacts no backend,
    and makes protected routes visible; its [logout] hides them
    again. *)
Theorem X23_useAuth_session (email password : string)
    (localStorage : Api.Storage) (st : Auth.State) :
  (Auth.isAuthenticated (Auth.checkAuth localStorage Auth.initialState) = true
   ↔ Auth.ProtectedRoute localStorage = Auth.Children)
  ∧ let r := Auth.login email password localStorage st in
    r.2 = []
    ∧ Auth.isAuthenticated r.1.2 = true
    ∧ Auth.email <$> Auth.user r.1.2 = Some email
    ∧ Auth.ProtectedRoute r.1.1 = Auth.Children
    ∧ Auth.isAuthenticated (Auth.logout r.1.1 r.1.2).2 = false
    ∧ Auth.ProtectedRoute (Auth.logout r.1.1 r.1.2).1 = Auth.Navigate "/login".
Proof.
  split.
  - unfold Auth.checkAuth, Auth.ProtectedRoute, Auth.isAuthenticated. cbn.
    by destruct (JS.truthy (localStorage !! "token")).
  - cbn [Auth.login Auth.logout fst snd]. unfold Auth.ProtectedRoute.
    rewrite lookup_insert_eq, lookup_delete_eq. by cbn.
Qed.

(** ** Colour mode *)

(** X24: toggling the colour mode yields light or dark, stores the
    new mode, and touches no other key; a reload then starts in the
    stored mode whatever the system preference; toggling twice from
    light or dark gives back the mode one started from. *)
Theorem X24_toggleColorMode (mode : string) (localStorage : Api.Storage)
    (prefersDarkMode : bool) :
  let r := Theme.toggleColorMode mode localStorage in
  (r.1 = "light" ∨ r.1 = "dark")
  ∧ r.1 ≠ mode
  ∧ r.2 !! "themeMode" = Some r.1
  ∧ (∀ key, key ≠ "themeMode" → r.2 !! key = localStorage !! key)
  ∧ Theme.initialMode r.2 prefersDarkMode = r.1
  ∧ (mode = "light" ∨ mode = "dark" → (Theme.toggleColorMode r.1 r.2).1 = mode).
Proof.
  unfold Theme.toggleColorMode, Theme.initialMode.
  cbn [fst snd]. rewrite lookup_insert_eq.
  destruct (decide (mode = "light")) as [->|Hm]; cbn.
  - split; [by right|]. split; [done|]. split; [done|]. split; [|done].
    intros key Hk. by rewrite lookup_insert_ne.
  - split; [by left|]. split; [done|]. split; [done|]. split.
    { intros key Hk. by rewrite lookup_insert_ne. }
    split; [done|]. by intros [->| ->].
Qed.

(** ** Notifications *)

Section NotificationFacts.
Import Notifications.

Lemma unreadCount_cons (n : Notification) (l : list Notification) :
  unreadCount (n :: l) = ((if read n then 0 else 1) + unreadCount l)%nat.
Proof. unfold unreadCount. cbn. by destruct (read n). Qed.

Lemma handleDelete_sublist (i : Z) (l : list Notification) :
  handleDelete i l `sublist_of` l.
Proof.
  unfold handleDelete. induction l as [|n l IH]; cbn [List.filter]; [done|].
  destruct (bool_decide _); by constructor.
Qed.

Lemma handleDelete_unread (i : Z) (l : list Notification) :
  (unreadCount (handleDelete i l) ≤ unreadCount l)%nat.
Proof.
  unfold handleDelete. induction l as [|n l IH]; cbn [List.filter]; [done|].
  destruct (bool_decide _); rewrite ?unreadCount_cons; lia.
Qed.

Lemma handleDelete_twice (i : Z) (l : list Notification) :
  handleDelete i (handleDelete i l) = handleDelete i l.
Proof.
  unfold handleDelete. induction l as [|n l IH]; cbn [List.filter]; [done|].
  destruct (bool_decide (id n ≠ i)) eqn:Hn; [|done].
  cbn [List.filter]. by rewrite Hn, IH.
Qed.
End NotificationFacts.

(** X25: marking all as read leaves no unread notification and keeps
    every notification with its id and text; marking one id as read
    makes the notifications with that id read, leaves the read flag
    of the others alone and so never raises the unread count; doing
    it twice is the same as once. *)
Theorem X25_mark_as_read (id_ : Z) (l : list Notifications.Notification) :
  Notifications.unreadCount (Notifications.handleMarkAllAsRead l) = 0%nat
  ∧ Notifications.id <$> Notifications.handleMarkAllAsRead l = Notifications.id <$> l
  ∧ Notifications.message <$> Notifications.handleMarkAllAsRead l
    = Notifications.message <$> l
  ∧ Notifications.id <$> Notifications.handleMarkAsRead id_ l = Notifications.id <$> l
  ∧ Notifications.read <$> Notifications.handleMarkAsRead id_ l
    = (λ n, bool_decide (Notifications.id n = id_) || Notifications.read n) <$> l
  ∧ (Notifications.unreadCount (Notifications.handleMarkAsRead id_ l)
     ≤ Notifications.unreadCount l)%nat
  ∧ Notifications.handleMarkAsRead id_ (Notifications.handleMarkAsRead id_ l)
    = Notifications.handleMarkAsRead id_ l.
Proof.
  unfold Notifications.handleMarkAllAsRead, Notifications.handleMarkAsRead.
  split; [|split; [|split; [|split; [|split; [|split]]]]].
  - induction l as [|n l IH]; [done|]. by rewrite fmap_cons, unreadCount_cons, IH.
  - rewrite <- list_fmap_compose. by apply list_fmap_ext.
  - rewrite <- list_fmap_compose. by apply list_fmap_ext.
  - rewrite <- list_fmap_compose. apply list_fmap_ext. intros i n _. cbn.
    by destruct (decide (Notifications.id n = id_)).
  - rewrite <- list_fmap_compose. apply list_fmap_ext. intros i n _. cbn.
    destruct (decide (Notifications.id n = id_)) as [Hn|Hn].
    + by rewrite bool_decide_eq_true_2.
    + by rewrite bool_decide_eq_false_2.
  - induction l as [|n l IH]; [done|]. rewrite fmap_cons, !unreadCount_cons.
    destruct (decide (Notifications.id n = id_)); cbn; destruct (Notifications.read n); lia.
  - rewrite <- list_fmap_compose. apply list_fmap_ext. intros i n _. cbn.
    destruct (decide (Notifications.id n = id_)) as [Hn|Hn]; cbn.
    + by rewrite decide_True.
    + by rewrite decide_False.
Qed.

(** X26: deleting an id removes exactly the notifications with that
    id and keeps the others in order; the list and its unread count
    never grow, and deleting the same id again changes nothing. *)
Theorem X26_delete_notification (id_ : Z) (l : list Notifications.Notification) :
  (∀ n, n ∈ Notifications.handleDelete id_ l ↔ n ∈ l ∧ Notifications.id n ≠ id_)
  ∧ Notifications.handleDelete id_ l `sublist_of` l
  ∧ (length (Notifications.handleDelete id_ l) ≤ length l)%nat
  ∧ (Notifications.unreadCount (Notifications.handleDelete id_ l)
     ≤ Notifications.unreadCount l)%nat
  ∧ Notifications.handleDelete id_ (Notifications.handleDelete id_ l)
    = Notifications.handleDelete id_ l.
Proof.
  split; [|split; [|split; [|split]]].
  - intros n. unfold Notifications.handleDelete.
    rewrite list_elem_of_In, filter_In, <- list_elem_of_In.
    by rewrite bool_decide_eq_true.
  - apply handleDelete_sublist.
  - apply sublist_length, handleDelete_sublist.
  - apply handleDelete_unread.
  - apply handleDelete_twice.
Qed.

(** ** Dashboard *)


(** ** The server behind the storage URLs *)

Lemma startsWith_storage (server dir tail : string) :
  JS.startsWith (server +:+ ("/storage/" +:+ dir) +:+ tail) (server +:+ "/storage/")
  = true.
Proof.
  apply startsWith_spec. exists (dir +:+ tail). by rewrite !append_assoc.
Qed.

(** X28: the storage URLs of a relative path all start with the
    server base followed by /storage/.  The server base is the API
    base URL cut before its first occurrence of /api, or the whole
    base URL when /api does not occur in it; an unset or empty base
    URL counts as http://localhost:8001/api. *)
Theorem X28_storage_urls_server (defaultsBaseURL : option string) (filePath : string) :
  let baseUrl := JS.or_else defaultsBaseURL "http://localhost:8001/api" in
  let server := JobDetail.serverBaseUrl defaultsBaseURL in
  (if JS.includes baseUrl "/api"
   then ∃ rest, baseUrl = server +:+ "/api" +:+ rest
          ∧ ∀ pre' rest', baseUrl = pre' +:+ "/api" +:+ rest' →
              (String.length server ≤ String.length pre')%nat
   else server = baseUrl)
  ∧ (JS.startsWith filePath "http://" = false →
     JS.startsWith filePath "https://" = false →
     ∀ u, u ∈ JobDetail.getBaseStorageUrls defaultsBaseURL filePath →
          JS.startsWith u (server +:+ "/storage/") = true)
  ∧ JobDetail.serverBaseUrl None = "http://localhost:8001"
  ∧ JobDetail.serverBaseUrl (Some "") = "http://localhost:8001".
Proof.
  intros baseUrl server. split; [apply serverBaseUrl_spec|].
  split; [|done].
  intros H1 H2 u Hu. unfold JobDetail.getBaseStorageUrls in Hu.
  destruct (decide (filePath = "")); [by apply elem_of_nil in Hu|].
  rewrite H1, H2 in Hu. cbn [orb] in Hu. fold server in Hu.
  repeat (apply elem_of_cons in Hu as [->|Hu];
          [first [ apply (startsWith_storage server "")
                 | apply (startsWith_storage server "twitter_images/")
                 | apply (startsWith_storage server "instagram_images/")
                 | apply (startsWith_storage server "linkedin_images/")
                 | apply (startsWith_storage server "facebook_images/")
                 | apply (startsWith_storage server "thumbnails/") ]|]).
  by apply elem_of_nil in Hu.
Qed.

Example serverBaseUrl_first_api :
  JobDetail.serverBaseUrl (Some "http://api.example.com/api") = "http:/".
Proof. reflexivity. Qed.

(** ** Instances of the conditional properties *)

Lemma X8_start_then_save_witness :
  (∀ j o, JobDetail.job Samples.detailState = Some j → o ∈ outputs j →
          out_id o = Samples.tweetId → content o = Some Samples.tweetText)
  ∧ JobDetail.job
      (JobDetail.handleSaveEditing Samples.tweetId
         (JobDetail.handleStartEditing Samples.tweetId Samples.tweetText
            Samples.detailState).1).1
    = JobDetail.job Samples.detailState.
Proof.
  assert (∀ j o, JobDetail.job Samples.detailState = Some j → o ∈ outputs j →
                 out_id o = Samples.tweetId → content o = Some Samples.tweetText)
    as H.
  { intros j o Hj Ho Hid. injection Hj as <-.
    apply list_elem_of_In in Ho. vm_compute in Ho.
    destruct Ho as [<-|[<-|[]]]; [reflexivity|].
    vm_compute in Hid. discriminate Hid. }
  split; [exact H|].
  exact (X8_start_then_save Samples.tweetId Samples.tweetText Samples.detailState H).
Defined.

Lemma X9_edit_session_witness :
  JobDetail.job Samples.detailState = Some Samples.completedMockJob
  ∧ ∃ j', JobDetail.job
            (JobDetail.handleSaveEditing Samples.tweetId
               (foldl (λ s v, (JobDetail.handleContentChange Samples.tweetId v s).1)
                  (JobDetail.handleStartEditing Samples.tweetId Samples.tweetText
                     Samples.detailState).1
                  ["draft one"; "final text"])).1 = Some j'
          ∧ length (outputs j') = length (outputs Samples.completedMockJob).
Proof.
  split; [reflexivity|].
  destruct (X9_edit_session Samples.tweetId Samples.tweetText
              ["draft one"; "final text"] Samples.detailState
              Samples.completedMockJob eq_refl) as (j' & H1 & H2 & _).
  exists j'. split; [exact H1|exact H2].
Defined.

Lemma X10_pages_cover_witness :
  (0 ≤ JobList.rowsPerPage JobList.initialState
   ∧ Z.of_nat (length (JobList.filteredJobs id Samples.lengthTime
                         (Some Samples.threeJobs) JobList.initialState))
     ≤ Z.of_nat 1 * JobList.rowsPerPage JobList.initialState)
  ∧ concat ((λ p, JobList.paginatedJobs id Samples.lengthTime
                    (Some Samples.threeJobs)
                    (JobList.handleChangePage (Z.of_nat p) JobList.initialState))
              <$> seq 0 1)
    = JobList.filteredJobs id Samples.lengthTime (Some Samples.threeJobs)
        JobList.initialState.
Proof.
  assert (0 ≤ JobList.rowsPerPage JobList.initialState) as H1 by (cbn; lia).
  assert (Z.of_nat (length (JobList.filteredJobs id Samples.lengthTime
                              (Some Samples.threeJobs) JobList.initialState))
          ≤ Z.of_nat 1 * JobList.rowsPerPage JobList.initialState) as H2
    by (vm_compute; discriminate).
  split; [done|].
  exact (X10_pages_cover id Samples.lengthTime (Some Samples.threeJobs)
           JobList.initialState 1 H1 H2).
Defined.

Lemma X11_filter_change_shows_first_page_witness :
  (0 < JobList.rowsPerPage JobList.initialState ∧ 0 < 5)
  ∧ JobList.paginatedJobs id Samples.lengthTime (Some Samples.threeJobs)
      (JobList.handleStatusFilterChange (Some COMPLETED) JobList.initialState)
    = take (Z.to_nat (JobList.rowsPerPage JobList.initialState))
        (JobList.filteredJobs id Samples.lengthTime (Some Samples.threeJobs)
           (JobList.handleStatusFilterChange (Some COMPLETED) JobList.initialState)).
Proof.
  assert (0 < JobList.rowsPerPage JobList.initialState) as H1 by (cbn; lia).
  assert (0 < 5) as H2 by lia.
  split; [done|].
  apply (X11_filter_change_shows_first_page id Samples.lengthTime
           (Some Samples.threeJobs) JobList.initialState (Some COMPLETED) 5 H1 H2).
Defined.

Lemma X13_add_then_remove_hashtag_witness :
  (form_metadata NewContent.initialFormData
   = Some {[ "tone" := MStr "professional"; "hashtags" := MStrs [];
             "style" := MStr "modern" ]}
   ∧ ({[ "tone" := MStr "professional"; "hashtags" := MStrs [];
         "style" := MStr "modern" ]} : gmap string MetaValue) !! "hashtags"
     = Some (MStrs []))
  ∧ (id "ai" ≠ "" → id "ai" ∉ @nil string →
     NewContent.handleRemoveHashtag (id "ai")
       (NewContent.handleAddHashtag id "ai" NewContent.initialFormData)
     = NewContent.initialFormData).
Proof.
  assert (({[ "tone" := MStr "professional"; "hashtags" := MStrs [];
              "style" := MStr "modern" ]} : gmap string MetaValue) !! "hashtags"
          = Some (MStrs [])) as H2 by reflexivity.
  split; [split; [reflexivity|exact H2]|].
  apply (X13_add_then_remove_hashtag id "ai" NewContent.initialFormData _ []
           eq_refl H2).
Defined.

Lemma X20_login_authorizes_requests_witness :
  "abc" ≠ ""
  ∧ Api.headers
      (Api.requestInterceptor
         (Auth.loginSubmit "ann@example.com" (Auth.LoginOk "abc") ∅).1.1
         {| Api.url := "/jobs"; Api.headers := ∅ |}) !! "Authorization"
    = Some "Bearer abc".
Proof.
  assert ("abc" ≠ "") as H by discriminate.
  split; [exact H|].
  apply (X20_login_authorizes_requests "ann@example.com" "abc" ∅
           {| Api.url := "/jobs"; Api.headers := ∅ |} H).
Defined.

(** ** Payload fields of an output *)




Example form_can_be_sent :
  NewContent.handleSubmit id
    (NewContent.run id
       [NewContent.TitleChange "Launch notes";
        NewContent.ContentChange "We shipped.";
        NewContent.ContentTypeChange TWITTER true])
  = NewContent.Send
      (Api.SubmitContent
         {| form_title := "Launch notes"; form_content := "We shipped.";
            form_content_types := [TWITTER];
            form_metadata := form_metadata NewContent.initialFormData |}).
Proof. reflexivity. Qed.
